(** * AtisSqlTableContext: the SQL grammar of the ATIS tables and its valid actions

    A shallow embedding of
    [allennlp/semparse/contexts/atis_sql_table_context.py]: the base grammar
    dictionary, the schema and string-constraint augmentation done by
    [initialize_grammar_str], and the constructor [__init__] with its
    sqlite connection.  Python strings are byte strings here; Python compares
    strings by code point, which on UTF-8 text is the byte order that
    [String.compare] implements. *)

From Stdlib Require Import String Ascii List Bool Arith Lia ZArith.
From Stdlib Require Import Permutation Sorted DecimalString OrdersEx RelationClasses.
Import ListNotations.
Open Scope string_scope.

Set Implicit Arguments.

(** ** Python strings *)

(** The double quote character, written apart since the grammar is full of it. *)
Definition dquote : string := String "034"%char EmptyString.

(** [f'"{s}"'] *)
Definition q (s : string) : string := dquote ++ s ++ dquote.

(** [s.endswith(suffix)] *)
Definition endswith (s suffix : string) : bool :=
  (String.length suffix <=? String.length s)%nat &&
  String.eqb
    (substring (String.length s - String.length suffix) (String.length suffix) s)
    suffix.

(** [a > b] on [str] *)
Definition str_gt (a b : string) : bool := String.ltb b a.

(** [a >= b] on [str]: [b] is not greater than [a]. *)
Definition str_ge (a b : string) : Prop := str_gt b a = false.

(** ** [sorted(xs, reverse=True)]

    A stable descending sort: an element goes before the elements it is
    equal to or greater than, so equal elements keep their original order. *)
Fixpoint insert_reverse (x : string) (l : list string) : list string :=
  match l with
  | [] => [x]
  | y :: l' => if str_gt y x then y :: insert_reverse x l' else x :: y :: l'
  end.

Fixpoint sorted_reverse (l : list string) : list string :=
  match l with
  | [] => []
  | x :: l' => insert_reverse x (sorted_reverse l')
  end.

(** [sorted(xs)], ascending and stable. *)
Fixpoint insert_sorted (x : string) (l : list string) : list string :=
  match l with
  | [] => [x]
  | y :: l' => if String.ltb y x then y :: insert_sorted x l' else x :: y :: l'
  end.

Fixpoint sorted (l : list string) : list string :=
  match l with
  | [] => []
  | x :: l' => insert_sorted x (sorted l')
  end.

(** ** Python dictionaries with string keys

    A [dict] keeps its keys in insertion order; assigning to a key that is
    present replaces the value where it stands, a new key goes last. *)
Section Dict.
Context {V : Type}.

Definition dict_of := list (string * V).

Fixpoint dict_get (k : string) (d : dict_of) : option V :=
  match d with
  | [] => None
  | (k', v) :: d' => if String.eqb k k' then Some v else dict_get k d'
  end.

Fixpoint dict_set (k : string) (v : V) (d : dict_of) : dict_of :=
  match d with
  | [] => [(k, v)]
  | (k', v') :: d' =>
      if String.eqb k k' then (k, v) :: d' else (k', v') :: dict_set k v d'
  end.

(** [list(d.keys())] *)
Definition keys (d : dict_of) : list string := map fst d.

(** [bool(d)] for an optional dictionary: [None] and [{}] are false. *)
Definition truthy_dict (d : option dict_of) : bool :=
  match d with
  | Some (_ :: _) => true
  | _ => false
  end.

(** [d.items()] of an optional dictionary that was found true. *)
Definition items (d : option dict_of) : dict_of :=
  match d with
  | Some l => l
  | None => []
  end.
End Dict.
Arguments dict_of V : clear implicits.

(** [Dict[str, List[str]]]: the grammar dictionary, the schema, the string
    constraints and the valid actions. *)
Definition dict := dict_of (list string).

(** The alternatives of a nonterminal; a nonterminal without an entry has none. *)
Definition alternatives (name : string) (d : dict) : list string :=
  match dict_get name d with
  | Some l => l
  | None => []
  end.

(** [bool(s)] for an optional string: [None] and the empty string are false. *)
Definition truthy_str (s : option string) : bool :=
  match s with
  | Some (String _ _) => true
  | _ => false
  end.

(** ** The base grammar *)

Definition GRAMMAR_DICTIONARY : dict :=
  [ ("statement",
      [ "query ws " ++ q ";" ++ " ws" ]);
    ("query",
      [ "(ws " ++ q "(" ++ " ws " ++ q "SELECT" ++ " ws distinct ws select_results ws " ++ q "FROM" ++ " ws table_refs ws where_clause ws " ++ q ")" ++ " ws)";
        "(ws " ++ q "SELECT" ++ " ws distinct ws select_results ws " ++ q "FROM" ++ " ws table_refs ws where_clause ws)" ]);
    ("select_results",
      [ "col_refs";
        "agg" ]);
    ("agg",
      [ "agg_func ws " ++ q "(" ++ " ws col_ref ws " ++ q ")" ]);
    ("agg_func",
      [ q "MIN"; q "min"; q "MAX"; q "max"; q "COUNT"; q "count" ]);
    ("col_refs",
      [ "(col_ref ws " ++ q "," ++ " ws col_refs)";
        "(col_ref)" ]);
    ("table_refs",
      [ "(table_name ws " ++ q "," ++ " ws table_refs)";
        "(table_name)" ]);
    ("where_clause",
      [ "(" ++ q "WHERE" ++ " ws " ++ q "(" ++ " ws conditions ws " ++ q ")" ++ " ws)";
        "(" ++ q "WHERE" ++ " ws conditions ws)" ]);
    ("conditions",
      [ "(condition ws conj ws conditions)";
        "(condition ws conj ws " ++ q "(" ++ " ws conditions ws " ++ q ")" ++ ")";
        "(" ++ q "(" ++ " ws conditions ws " ++ q ")" ++ " ws conj ws conditions)";
        "(" ++ q "(" ++ " ws conditions ws " ++ q ")" ++ ")";
        "(" ++ q "not" ++ " ws conditions ws )";
        "(" ++ q "NOT" ++ " ws conditions ws )";
        "condition" ]);
    ("condition",
      [ "in_clause";
        "ternaryexpr";
        "biexpr" ]);
    ("in_clause",
      [ "(ws col_ref ws " ++ q "IN" ++ " ws query ws)" ]);
    ("biexpr",
      [ "( col_ref ws binaryop ws value)";
        "(value ws binaryop ws value)" ]);
    ("binaryop",
      [ q "+"; q "-"; q "*"; q "/"; q "=";
        q ">="; q "<="; q ">"; q "<"; q "is"; q "IS" ]);
    ("ternaryexpr",
      [ "(col_ref ws " ++ q "not" ++ " ws " ++ q "BETWEEN" ++ " ws value ws " ++ q "AND" ++ " ws value ws)";
        "(col_ref ws " ++ q "NOT" ++ " ws " ++ q "BETWEEN" ++ " ws value ws " ++ q "AND" ++ " ws value ws)";
        "(col_ref ws " ++ q "BETWEEN" ++ " ws value ws " ++ q "AND" ++ " ws value ws)" ]);
    ("value",
      [ "(" ++ q "not" ++ " ws pos_value)";
        "(" ++ q "NOT" ++ " ws pos_value)";
        "(pos_value)" ]);
    ("pos_value",
      [ "(" ++ q "ALL" ++ " ws query)";
        "(" ++ q "ANY" ++ " ws query)";
        "number";
        "boolean";
        "col_ref";
        "agg_results";
        q "NULL" ]);
    ("agg_results",
      [ "(ws " ++ q "(" ++ "  ws " ++ q "SELECT" ++ " ws distinct ws agg ws " ++ q "FROM" ++ " ws table_name ws where_clause ws " ++ q ")" ++ " ws)";
        "(ws " ++ q "SELECT" ++ " ws distinct ws agg ws " ++ q "FROM" ++ " ws table_name ws where_clause ws)" ]);
    ("boolean",
      [ q "true"; q "false" ]);
    ("ws",
      [ "~" ++ q "\s*" ++ "i" ]);
    ("conj",
      [ q "AND"; q "OR" ]);
    ("distinct",
      [ "(" ++ q "DISTINCT" ++ ")";
        "(" ++ q EmptyString ++ ")" ]);
    ("number",
      [ q EmptyString ]) ].

Definition KEYWORDS : list string :=
  [ q "SELECT"; q "FROM"; q "MIN"; q "MAX"; q "COUNT"; q "WHERE"; q "NOT";
    q "IN"; q "LIKE"; q "IS"; q "BETWEEN"; q "AND"; q "ALL"; q "ANY";
    q "NULL"; q "OR"; q "DISTINCT" ].

(** The two generic alternatives that close every [biexpr] list. *)
Definition biexpr_fallback : list string :=
  [ "( col_ref ws binaryop ws value)"; "(value ws binaryop ws value)" ].

(** [f'("{table}" ws "." ws "{column}")'] *)
Definition col_ref_production (table column : string) : string :=
  "(" ++ q table ++ " ws " ++ q "." ++ " ws " ++ q column ++ ")".

(** [f'{table}_{column}_string'] *)
Definition string_nonterminal (table column : string) : string :=
  table ++ "_" ++ column ++ "_string".

(** [f'("{table}" ws "." ws "{column}" ws binaryop ws {table}_{column}_string)'] *)
Definition biexpr_production (table column : string) : string :=
  "(" ++ q table ++ " ws " ++ q "." ++ " ws " ++ q column
      ++ " ws binaryop ws " ++ string_nonterminal table column ++ ")".

(** [f'SELECT DISTINCT {table} . {column} FROM {table}'] *)
Definition distinct_query (table column : string) : string :=
  "SELECT DISTINCT " ++ table ++ " . " ++ column ++ " FROM " ++ table.

(** ** The sqlite data source *)

(** A value of a fetched row.  [SqlReal] and [SqlBlob] carry the text that
    Python's [str] gives for them. *)
Inductive sql_value : Type :=
| SqlNull
| SqlInteger (z : Z)
| SqlText (s : string)
| SqlReal (text : string)
| SqlBlob (text : string).

(** [str(row[0])] *)
Definition str (v : sql_value) : string :=
  match v with
  | SqlNull => "None"
  | SqlInteger z => NilZero.string_of_int (Z.to_int z)
  | SqlText s => s
  | SqlReal text => text
  | SqlBlob text => text
  end.

Inductive exception : Type :=
| AttributeError      (* an attribute of [self] that was never assigned *)
| DataSourceError     (* [sqlite3.Error]: connecting or querying failed *)
| GrammarCompileError (* raised by [Grammar(...)] *)
| FetchError.         (* raised by [cached_path] *)

Inductive result (A : Type) : Type :=
| Ok (a : A)
| Raise (e : exception).
Arguments Ok {A} a.
Arguments Raise {A} e.

(** What a database answers to the text of a statement: the first component
    [row[0]] of every row that [fetchall] then returns, in the order the
    database produces them, or the error that [execute] raises. *)
Definition database := string -> result (list sql_value).

(** Two answers to one statement that differ at most in the order of the rows. *)
Definition same_answer (a a' : result (list sql_value)) : Prop :=
  match a, a' with
  | Ok rows, Ok rows' => Permutation rows rows'
  | Raise e, Raise e' => e = e'
  | _, _ => False
  end.

(** Two databases that hold one snapshot of the data: they answer every
    statement alike, up to the order of the rows. *)
Definition same_snapshot (db db' : database) : Prop :=
  forall statement, same_answer (db statement) (db' statement).

(** Two outcomes of [sqlite3.connect] on one snapshot. *)
Definition same_source (r r' : result database) : Prop :=
  match r, r' with
  | Ok db, Ok db' => same_snapshot db db'
  | Raise e, Raise e' => e = e'
  | _, _ => False
  end.

Record connection : Type := {
  conn_database : database;
  conn_open : bool
}.

Record cursor : Type := {
  cur_database : database;
  cur_rows : list sql_value   (* the rows of the last statement, not yet fetched *)
}.

(** ** The object under construction *)

(** The attributes of [self] that change while construction runs: the
    grammar dictionary, the connection and its cursor; and the statements
    executed so far.  [all_tables], [tables_with_strings] and
    [database_file], which [__init__] stores from its arguments and only
    reads afterwards, are the arguments themselves here, and [grammar_str],
    [grammar] and [valid_actions], assigned once, are the values the
    constructor computes. *)
Record self : Type := {
  grammar_dictionary : dict;
  self_connection : option connection;
  self_cursor : option cursor;
  executed : list string
}.

Definition new_self : self :=
  {| grammar_dictionary := [];
     self_connection := None;
     self_cursor := None;
     executed := [] |}.

(** What a constructed context offers. *)
Record context : Type := {
  get_grammar_dictionary : dict;
  get_valid_actions : dict
}.

(** Statements run on [self] and either return or raise. *)
Definition M (A : Type) : Type := self -> result A * self.

Definition ret {A} (a : A) : M A := fun s => (Ok a, s).

Definition raise {A} (e : exception) : M A := fun s => (Raise e, s).

Definition bind {A B} (m : M A) (k : A -> M B) : M B :=
  fun s =>
    match m s with
    | (Ok a, s') => k a s'
    | (Raise e, s') => (Raise e, s')
    end.

Definition lift {A} (r : result A) : M A := fun s => (r, s).

Notation "x <- m ;; k" := (bind m (fun x => k))
  (at level 61, m at next level, right associativity).
Notation "m ;; k" := (bind m (fun _ => k))
  (at level 61, right associativity).

(** [for x in l: body(x)] *)
Fixpoint for_each {A} (l : list A) (body : A -> M unit) : M unit :=
  match l with
  | [] => ret tt
  | x :: l' => body x ;; for_each l' body
  end.

(** A loop that carries the local variable [acc]. *)
Fixpoint for_each_acc {A B} (l : list A) (acc : B) (body : B -> A -> M B) : M B :=
  match l with
  | [] => ret acc
  | x :: l' => acc' <- body acc x ;; for_each_acc l' acc' body
  end.

(** [self.grammar_dictionary] *)
Definition get_dictionary : M dict := fun s => (Ok (grammar_dictionary s), s).

Definition with_dictionary (d : dict) (s : self) : self :=
  {| grammar_dictionary := d;
     self_connection := self_connection s;
     self_cursor := self_cursor s;
     executed := executed s |}.

(** [self.grammar_dictionary = d] *)
Definition set_dictionary (d : dict) : M unit :=
  fun s => (Ok tt, with_dictionary d s).

(** [self.grammar_dictionary[k] = v] *)
Definition set_item (k : string) (v : list string) : M unit :=
  d <- get_dictionary ;; set_dictionary (dict_set k v d).

(** [self.grammar_dictionary[k]]; a missing key would be a [KeyError], which
    the constructor cannot reach: it reads [col_ref] only after assigning it. *)
Definition get_item (k : string) : M (list string) :=
  d <- get_dictionary ;; ret (alternatives k d).

(** [self.cursor.execute(statement)] *)
Definition cursor_execute (statement : string) : M unit :=
  fun s =>
    match self_cursor s with
    | None => (Raise AttributeError, s)
    | Some c =>
        let s' rows :=
          {| grammar_dictionary := grammar_dictionary s;
             self_connection := self_connection s;
             self_cursor := Some {| cur_database := cur_database c; cur_rows := rows |};
             executed := (executed s ++ [statement])%list |} in
        match cur_database c statement with
        | Ok rows => (Ok tt, s' rows)
        | Raise e => (Raise e, s' [])
        end
    end.

(** [self.cursor.fetchall()] *)
Definition cursor_fetchall : M (list sql_value) :=
  fun s =>
    match self_cursor s with
    | None => (Raise AttributeError, s)
    | Some c =>
        (Ok (cur_rows c),
         {| grammar_dictionary := grammar_dictionary s;
            self_connection := self_connection s;
            self_cursor := Some {| cur_database := cur_database c; cur_rows := [] |};
            executed := executed s |})
    end.

(** [self.connection = sqlite3.connect(...)] then [self.cursor = self.connection.cursor()] *)
Definition open_connection (db : database) : M unit :=
  fun s =>
    (Ok tt,
     {| grammar_dictionary := grammar_dictionary s;
        self_connection := Some {| conn_database := db; conn_open := true |};
        self_cursor := Some {| cur_database := db; cur_rows := [] |};
        executed := executed s |}).

(** [self.connection.close()] *)
Definition connection_close : M unit :=
  fun s =>
    match self_connection s with
    | None => (Raise AttributeError, s)
    | Some c =>
        (Ok tt,
         {| grammar_dictionary := grammar_dictionary s;
            self_connection := Some {| conn_database := conn_database c; conn_open := false |};
            self_cursor := self_cursor s;
            executed := executed s |})
    end.

(** ** The collaborators of the constructor

    The grammar formatter and the action enumeration of [sql_context_utils],
    the parser generator [parsimonious.Grammar] and [cached_path] are not part
    of this file; the constructor is parametric in them. *)
Record externals : Type := {
  compiled : Type;
  cached_path : string -> result string;
  format_grammar_string : dict -> string;
  Grammar : string -> result compiled;
  initialize_valid_actions : compiled -> list string -> dict
}.

Section AtisSqlTableContext.
Variable E : externals.
(** [sqlite3.connect]: the database behind a file, or the error it raises. *)
Variable sqlite3_connect : string -> result database.

Variable all_tables : option dict.
Variable tables_with_strings : option dict.
Variable database_file : option string.

(** The body of [for column in columns] in the string-constraint loop. *)
Definition string_column (table column : string) : M unit :=
  cursor_execute (distinct_query table column) ;;
  if endswith column "number"
  then
    rows <- cursor_fetchall ;;
    set_item (string_nonterminal table column)
             (sorted_reverse (map (fun row => q (str row)) rows))
  else
    rows <- cursor_fetchall ;;
    set_item (string_nonterminal table column)
             (sorted_reverse (map (fun row => q ("'" ++ str row ++ "'")) rows)).

(** The block [if self.all_tables:] of [initialize_grammar_str]. *)
Definition augment_schema : M unit :=
  if truthy_dict all_tables
  then
    set_item "table_name" (sorted_reverse (map q (keys (items all_tables)))) ;;
    set_item "col_ref" [q "*"] ;;
    for_each (items all_tables)
      (fun '(table, columns) =>
         col_ref <- get_item "col_ref" ;;
         set_item "col_ref" (col_ref ++ map (col_ref_production table) columns)%list) ;;
    col_ref <- get_item "col_ref" ;;
    set_item "col_ref" (sorted_reverse col_ref)
  else ret tt.

(** [biexprs = []] and the block [if self.tables_with_strings:], which
    leaves the local [biexprs]. *)
Definition constrain_strings : M (list string) :=
  if truthy_dict tables_with_strings
  then
    for_each_acc (items tables_with_strings) []
      (fun biexprs '(table, columns) =>
         let biexprs := (biexprs ++ map (biexpr_production table) columns)%list in
         for_each columns (string_column table) ;;
         ret biexprs)
  else ret [].

Definition initialize_grammar_str : M string :=
  augment_schema ;;
  biexprs <- constrain_strings ;;
  set_item "biexpr" (sorted_reverse biexprs ++ biexpr_fallback)%list ;;
  d <- get_dictionary ;;
  ret (format_grammar_string E d).

(** The block [if database_file:] that opens the connection. *)
Definition connect_database : M unit :=
  if truthy_str database_file
  then
    path <- lift (cached_path E (match database_file with
                                 | Some f => f
                                 | None => EmptyString
                                 end)) ;;
    db <- lift (sqlite3_connect path) ;;
    open_connection db
  else ret tt.

(** [AtisSqlTableContext.__init__] *)
Definition init : M context :=
  set_dictionary GRAMMAR_DICTIONARY ;;
  connect_database ;;
  grammar_str <- initialize_grammar_str ;;
  grammar <- lift (Grammar E grammar_str) ;;
  let valid_actions := initialize_valid_actions E grammar KEYWORDS in
  (if truthy_str database_file then connection_close else ret tt) ;;
  d <- get_dictionary ;;
  ret {| get_grammar_dictionary := d; get_valid_actions := valid_actions |}.

(** [AtisSqlTableContext(all_tables, tables_with_strings, database_file)]:
    the context or the exception, and the attributes of [self] at that point. *)
Definition construct : result context * self := init new_self.
End AtisSqlTableContext.

(** The (table, column) pairs of a dictionary, in the order the loops of
    [initialize_grammar_str] go through them. *)
Definition pairs (d : dict) : list (string * string) :=
  flat_map (fun '(table, columns) => map (pair table) columns) d.

(** No pair of [later] writes the nonterminal [name]. *)
Definition not_rewritten (name : string) (later : list (string * string)) : bool :=
  forallb (fun '(table, column) => negb (String.eqb (string_nonterminal table column) name))
          later.

(** ** The action table *)

(** [s.upper()] on ASCII letters. *)
Definition upper_ascii (c : ascii) : ascii :=
  let n := nat_of_ascii c in
  if ((97 <=? n) && (n <=? 122))%nat then ascii_of_nat (n - 32) else c.

Fixpoint upper (s : string) : string :=
  match s with
  | EmptyString => EmptyString
  | String c s' => String (upper_ascii c) (upper s')
  end.

Module ValidActions.

(** Modelled from the spec: the compiled rule tree that [Grammar] returns,
    which belongs to the parser generator and is not among the sources;
    flattened as the spec describes it, every nonterminal with its
    alternative right-hand sides, each a sequence of symbols. *)
Definition production := list string.
Definition compiled_grammar := dict_of (list production).

(** Modelled from the spec: how [initialize_valid_actions], which is not
    among the sources, reads a symbol: a symbol whose upper-case form is
    in the keyword list stands for that keyword, whatever its casing. *)
Definition keyword_form (keywords : list string) (symbol : string) : string :=
  if existsb (String.eqb (upper symbol)) keywords then upper symbol else symbol.

Fixpoint production_eqb (p p' : production) : bool :=
  match p, p' with
  | [], [] => true
  | x :: r, x' :: r' => String.eqb x x' && production_eqb r r'
  | _, _ => false
  end.

(** Modelled from the spec: two productions that differ from one another
    only in keyword letter-casing ([initialize_valid_actions] is not among
    the sources). *)
Definition same_but_casing (keywords : list string) (p p' : production) : bool :=
  production_eqb (map (keyword_form keywords) p) (map (keyword_form keywords) p').

(** Modelled from the spec: the collapse of [initialize_valid_actions]
    (not among the sources): of the productions that differ only in keyword
    casing the first encountered one stays, in its own casing. *)
Fixpoint collapse (keywords : list string) (alts : list production) : list production :=
  match alts with
  | [] => []
  | p :: rest =>
      p :: filter (fun p' => negb (same_but_casing keywords p p'))
                  (collapse keywords rest)
  end.

(** Modelled from the spec: the canonical string [LHS -> RHS1 RHS2 ...] of
    an action ([initialize_valid_actions] is not among the sources). *)
Definition canonical_action (lhs : string) (p : production) : string :=
  lhs ++ " -> " ++ String.concat " " p.

(** Modelled from the spec: [initialize_valid_actions] of
    [sql_context_utils], which is not among the sources: every compiled
    nonterminal with the sorted canonical strings of its collapsed
    alternatives. *)
Definition initialize_valid_actions (g : compiled_grammar) (keywords : list string) : dict :=
  map (fun '(lhs, alts) =>
         (lhs, sorted (map (canonical_action lhs) (collapse keywords alts))))
      g.


End ValidActions.

(** ** Sample collaborators and inputs, to run the constructor on *)

Module Sample.

Definition newline : string := String "010"%char EmptyString.

(** One rule per nonterminal, its alternatives joined by the ordered choice. *)
Definition format_grammar_string (d : dict) : string :=
  String.concat newline
    (map (fun '(nonterminal, rhs) => nonterminal ++ " = " ++ String.concat " / " rhs) d).

(** Collaborators that accept every file and every grammar text; the
    compiled grammar is the text, and the action table lists it. *)
Definition E : externals :=
  Build_externals (fun f => Ok f) format_grammar_string
                  (fun text : string => Ok text)
                  (fun g _ => [("grammar", [g])]).

(** A database with one table [city] whose column [state] holds the rows
    CA, TX, CA; it answers the distinct values, CA first. *)
Definition city_db : database :=
  fun statement =>
    if String.eqb statement (distinct_query "city" "state")
    then Ok [SqlText "CA"; SqlText "TX"]
    else if String.eqb statement (distinct_query "city" "city_name")
    then Ok [SqlText "BOSTON"; SqlText "DENVER"]
    else Raise DataSourceError.

(** The same table in a database that answers TX first. *)
Definition city_db' : database :=
  fun statement =>
    if String.eqb statement (distinct_query "city" "state")
    then Ok [SqlText "TX"; SqlText "CA"]
    else if String.eqb statement (distinct_query "city" "city_name")
    then Ok [SqlText "DENVER"; SqlText "BOSTON"]
    else Raise DataSourceError.

Definition connect : string -> result database := fun _ => Ok city_db.
Definition connect' : string -> result database := fun _ => Ok city_db'.

Definition city_schema : dict := [("city", ["city_name"; "state"])].
Definition two_tables : dict :=
  [("city", ["city_name"; "state"]); ("flight", ["flight_number"])].



End Sample.

(** A database with a table [flight] whose column [flight_number] holds the
    integers 12, 7, 305 and a table [city] whose column [state] holds CA, TX. *)
Module Flights.

Definition db : database :=
  fun statement =>
    if String.eqb statement "SELECT DISTINCT flight . flight_number FROM flight"
    then Ok [SqlInteger 12; SqlInteger 7; SqlInteger 305]
    else if String.eqb statement "SELECT DISTINCT city . state FROM city"
    then Ok [SqlText "CA"; SqlText "TX"]
    else Raise DataSourceError.

Definition connect : string -> result database := fun _ => Ok db.

Definition constraints : dict := [("flight", ["flight_number"]); ("city", ["state"])].

End Flights.

(** ** Bookkeeping for the properties *)

(** The keys of a dictionary after an assignment to [k]: a new key goes last. *)
Definition add_key (ks : list string) (k : string) : list string :=
  if existsb (String.eqb k) ks then ks else (ks ++ [k])%list.

(** The database answers the distinct-value query of a pair with rows. *)
Definition query_succeeds (db : database) (p : string * string) : bool :=
  match db (distinct_query (fst p) (snd p)) with
  | Ok _ => true
  | Raise _ => false
  end.

(** * Properties *)

(** ** The order on strings *)

Lemma compare_as_OT (a b : string) : String.compare a b = String_as_OT.compare a b.
Proof.
  revert b; induction a as [|x a IH]; intros [|y b]; simpl; trivial.
Qed.

Lemma compare_refl (a : string) : String.compare a a = Eq.
Proof.
  rewrite compare_as_OT.
  destruct (String_as_OT.compare_spec a a) as [_|H|H]; trivial;
    now apply (StrictOrder_Irreflexive (R := String_as_OT.lt)) in H.
Qed.

Lemma compare_lt_trans (a b c : string) :
  String.compare a b = Lt -> String.compare b c = Lt -> String.compare a c = Lt.
Proof.
  rewrite !compare_as_OT. apply (StrictOrder_Transitive (R := String_as_OT.lt)).
Qed.

Lemma str_gt_irrefl (a : string) : str_gt a a = false.
Proof. unfold str_gt, String.ltb. now rewrite compare_refl. Qed.

Lemma str_gt_trans (a b c : string) :
  str_gt a b = true -> str_gt b c = true -> str_gt a c = true.
Proof.
  unfold str_gt, String.ltb. intros H1 H2.
  destruct (String.compare b a) eqn:Hba; try discriminate.
  destruct (String.compare c b) eqn:Hcb; try discriminate.
  now rewrite (compare_lt_trans _ _ _ Hcb Hba).
Qed.

(** Of two different strings one is greater. *)
Lemma str_gt_total (a b : string) : str_gt a b = false -> str_gt b a = false -> a = b.
Proof.
  unfold str_gt, String.ltb. rewrite (String.compare_antisym a b).
  destruct (String.compare b a) eqn:H; simpl; try discriminate.
  intros _ _. symmetry. now apply String.compare_eq_iff.
Qed.

Lemma str_gt_asym (a b : string) : str_gt a b = true -> str_gt b a = false.
Proof.
  intros H. destruct (str_gt b a) eqn:H'; trivial.
  pose proof (str_gt_trans _ _ _ H H') as Hc. now rewrite str_gt_irrefl in Hc.
Qed.

Lemma str_ge_trans (a b c : string) : str_ge a b -> str_ge b c -> str_ge a c.
Proof.
  unfold str_ge. intros Hab Hbc.
  destruct (str_gt c a) eqn:Hca; trivial.
  destruct (str_gt a b) eqn:Hgt.
  - pose proof (str_gt_trans _ _ _ Hca Hgt) as H. congruence.
  - assert (a = b) by now apply str_gt_total. subst. congruence.
Qed.

(** ** Sorting *)

Lemma insert_reverse_perm (x : string) (l : list string) :
  Permutation (insert_reverse x l) (x :: l).
Proof.
  induction l as [|y l IH]; simpl; trivial.
  destruct (str_gt y x); trivial.
  rewrite IH. apply perm_swap.
Qed.

Lemma sorted_reverse_perm (l : list string) : Permutation (sorted_reverse l) l.
Proof.
  induction l as [|x l IH]; simpl; trivial.
  rewrite insert_reverse_perm. now constructor.
Qed.

Lemma sorted_reverse_length (l : list string) : length (sorted_reverse l) = length l.
Proof. apply Permutation_length, sorted_reverse_perm. Qed.

Lemma sorted_reverse_In (x : string) (l : list string) : In x (sorted_reverse l) <-> In x l.
Proof.
  split; apply Permutation_in; [|symmetry]; apply sorted_reverse_perm.
Qed.

Lemma insert_reverse_descending (x : string) (l : list string) :
  StronglySorted str_ge l -> StronglySorted str_ge (insert_reverse x l).
Proof.
  induction 1 as [|y l Hl IH Hy]; simpl.
  - repeat constructor.
  - destruct (str_gt y x) eqn:Hyx.
    + constructor; trivial.
      rewrite Forall_forall in *. intros z Hz.
      apply (Permutation_in _ (insert_reverse_perm x l)) in Hz.
      destruct Hz as [<-|Hz]; [now apply str_gt_asym | now apply Hy].
    + constructor; [now constructor|].
      constructor; trivial.
      rewrite Forall_forall in *. intros z Hz.
      apply str_ge_trans with y; [exact Hyx | now apply Hy].
Qed.

Lemma sorted_reverse_descending (l : list string) : StronglySorted str_ge (sorted_reverse l).
Proof.
  induction l; simpl; [constructor | now apply insert_reverse_descending].
Qed.

(** A descending list is determined by its elements. *)
Lemma descending_unique (l1 l2 : list string) :
  StronglySorted str_ge l1 -> StronglySorted str_ge l2 -> Permutation l1 l2 -> l1 = l2.
Proof.
  intros H1; revert l2.
  induction H1 as [|x l1 Hl1 IH Hx]; intros l2 H2 HP.
  - now apply Permutation_nil in HP.
  - destruct H2 as [|y l2 Hl2 Hy].
    + now apply Permutation_sym, Permutation_nil in HP.
    + assert (x = y) as ->.
      { rewrite Forall_forall in Hx, Hy.
        assert (Hxin : In x (y :: l2)) by (apply (Permutation_in _ HP); now left).
        assert (Hyin : In y (x :: l1))
          by (apply (Permutation_in _ (Permutation_sym HP)); now left).
        destruct Hxin as [->|Hxin]; trivial.
        destruct Hyin as [->|Hyin]; trivial.
        apply str_gt_total; [apply (Hy _ Hxin) | apply (Hx _ Hyin)]. }
      f_equal. apply IH; trivial. now apply Permutation_cons_inv in HP.
Qed.

(** The order in which the elements arrive does not show after sorting. *)
Lemma sorted_reverse_of_perm (l1 l2 : list string) :
  Permutation l1 l2 -> sorted_reverse l1 = sorted_reverse l2.
Proof.
  intros HP. apply descending_unique; try apply sorted_reverse_descending.
  now rewrite !sorted_reverse_perm.
Qed.

Lemma descending_strict (l : list string) :
  NoDup l -> StronglySorted str_ge l ->
  StronglySorted (fun a b => str_gt a b = true) l.
Proof.
  intros Hn Hs; induction Hs as [|x l Hl IH Hx]; constructor.
  - apply IH. now inversion Hn.
  - rewrite Forall_forall in *. intros y Hy.
    destruct (str_gt x y) eqn:Hxy; trivial.
    assert (x = y) by (apply str_gt_total; [trivial | now apply Hx]).
    subst. now inversion Hn.
Qed.



(** ** Strings and their suffixes *)

Lemma length_append (a b : string) :
  String.length (a ++ b) = String.length a + String.length b.
Proof. induction a; simpl; auto. Qed.

Lemma append_assoc (a b c : string) : (a ++ b) ++ c = a ++ b ++ c.
Proof. induction a; simpl; congruence. Qed.

Lemma append_cancel_r (a b c : string) : a ++ c = b ++ c -> a = b.
Proof.
  revert b; induction a as [|x a IH]; intros [|y b] H; simpl in H; trivial.
  - apply (f_equal String.length) in H. simpl in H. rewrite length_append in H. lia.
  - apply (f_equal String.length) in H. simpl in H. rewrite length_append in H. lia.
  - injection H as -> H. f_equal. now apply IH.
Qed.

Lemma q_injective (a b : string) : q a = q b -> a = b.
Proof.
  unfold q, dquote. simpl. intros H. injection H as H. now apply append_cancel_r in H.
Qed.

Lemma substring_whole (s : string) : substring 0 (String.length s) s = s.
Proof. induction s; simpl; congruence. Qed.

Lemma substring_skip (a b : string) (n : nat) :
  substring (String.length a) n (a ++ b) = substring 0 n b.
Proof. induction a; simpl; trivial. Qed.

Lemma endswith_append (a b : string) : endswith (a ++ b) b = true.
Proof.
  unfold endswith. rewrite length_append.
  replace (String.length a + String.length b - String.length b) with (String.length a) by lia.
  rewrite substring_skip, substring_whole, String.eqb_refl.
  rewrite andb_true_r. apply Nat.leb_le. lia.
Qed.

Lemma substring_split (k : nat) : forall s : string,
  k <= String.length s ->
  substring 0 k s ++ substring k (String.length s - k) s = s.
Proof.
  induction k as [|k IH]; intros s Hk.
  - rewrite Nat.sub_0_r, substring_whole. now destruct s.
  - destruct s as [|c s]; simpl in Hk; [lia|].
    simpl. f_equal. apply IH. lia.
Qed.

(** [s.endswith(suffix)] holds exactly of the strings that are something
    followed by [suffix]. *)
Lemma endswith_iff (s suffix : string) :
  endswith s suffix = true <-> exists prefix, s = prefix ++ suffix.
Proof.
  split.
  - unfold endswith. intros H. apply andb_true_iff in H as [Hlen Heq].
    apply Nat.leb_le in Hlen. apply String.eqb_eq in Heq.
    exists (substring 0 (String.length s - String.length suffix) s).
    pose proof (@substring_split (String.length s - String.length suffix) s) as Hs.
    replace (String.length s - (String.length s - String.length suffix))
      with (String.length suffix) in Hs by lia.
    rewrite Heq in Hs. symmetry. apply Hs. lia.
  - intros [prefix ->]. apply endswith_append.
Qed.

(** The nonterminals made for string constraints are the ones that end in [_string]. *)
Lemma string_nonterminal_suffix (table column : string) :
  endswith (string_nonterminal table column) "_string" = true.
Proof.
  unfold string_nonterminal.
  rewrite <- (append_assoc "_" column), <- (append_assoc table).
  apply endswith_append.
Qed.

Lemma string_nonterminal_neq (table column k : string) :
  endswith k "_string" = false -> k <> string_nonterminal table column.
Proof.
  intros H ->. now rewrite string_nonterminal_suffix in H.
Qed.

(** ** Dictionaries *)

Lemma dict_get_set_same {V} (k : string) (v : V) (d : dict_of V) :
  dict_get k (dict_set k v d) = Some v.
Proof.
  induction d as [|[k' v'] d IH]; simpl.
  - now rewrite String.eqb_refl.
  - destruct (String.eqb k k') eqn:Hk; simpl; rewrite ?String.eqb_refl, ?Hk; trivial.
Qed.

Lemma dict_get_set_other {V} (k k' : string) (v : V) (d : dict_of V) :
  k <> k' -> dict_get k (dict_set k' v d) = dict_get k d.
Proof.
  intros Hne. induction d as [|[k'' v''] d IH]; simpl.
  - apply String.eqb_neq in Hne. now rewrite Hne.
  - destruct (String.eqb k' k'') eqn:Hk; simpl.
    + apply String.eqb_eq in Hk. subst k''.
      apply String.eqb_neq in Hne. now rewrite Hne.
    + now rewrite IH.
Qed.

Lemma dict_set_set {V} (k : string) (v v' : V) (d : dict_of V) :
  dict_set k v' (dict_set k v d) = dict_set k v' d.
Proof.
  induction d as [|[k' w] d IH]; simpl.
  - now rewrite String.eqb_refl.
  - destruct (String.eqb k k') eqn:Hk; simpl; rewrite ?String.eqb_refl, ?Hk; congruence.
Qed.

Lemma alternatives_set_same (k : string) (v : list string) (d : dict) :
  alternatives k (dict_set k v d) = v.
Proof. unfold alternatives. now rewrite dict_get_set_same. Qed.

Lemma alternatives_set_other (k k' : string) (v : list string) (d : dict) :
  k <> k' -> alternatives k (dict_set k' v d) = alternatives k d.
Proof. intros H. unfold alternatives. now rewrite dict_get_set_other. Qed.

(** ** Loops *)

Local Open Scope list_scope.

Lemma for_each_app {A} (l1 l2 : list A) (body : A -> M unit) (s : self) :
  for_each (l1 ++ l2) body s = (for_each l1 body ;; for_each l2 body) s.
Proof.
  revert s; induction l1 as [|x l1 IH]; intros s; simpl; trivial.
  unfold bind. destruct (body x s) as [[[]|e] s1]; [apply IH | reflexivity].
Qed.

Lemma for_each_pair {A B} (a : A) (l : list B) (body : A -> B -> M unit) (s : self) :
  for_each (map (pair a) l) (fun '(x, y) => body x y) s = for_each l (body a) s.
Proof.
  revert s; induction l as [|y l IH]; intros s; simpl; trivial.
  unfold bind. destruct (body a y s) as [[[]|e] s1]; trivial.
Qed.

Lemma pairs_cons (table : string) (columns : list string) (d : dict) :
  pairs ((table, columns) :: d) = map (pair table) columns ++ pairs d.
Proof. reflexivity. Qed.

Lemma with_dictionary_twice (d d' : dict) (s : self) :
  with_dictionary d' (with_dictionary d s) = with_dictionary d' s.
Proof. reflexivity. Qed.

Lemma bind_run {A B} (m : M A) (k : A -> M B) (s s' : self) (a : A) :
  m s = (Ok a, s') -> bind m k s = k a s'.
Proof. unfold bind. now intros ->. Qed.

Lemma set_item_run (k : string) (v : list string) (s : self) :
  set_item k v s = (Ok tt, with_dictionary (dict_set k v (grammar_dictionary s)) s).
Proof. reflexivity. Qed.

Lemma bind_set_item {B} (k : string) (v : list string) (m : M B) (s : self) :
  (set_item k v ;; m) s = m (with_dictionary (dict_set k v (grammar_dictionary s)) s).
Proof. reflexivity. Qed.

Lemma bind_get_item {B} (k : string) (m : list string -> M B) (s : self) :
  (x <- get_item k ;; m x) s = m (alternatives k (grammar_dictionary s)) s.
Proof. reflexivity. Qed.

Section Construction.
Variable E : externals.
Variable sqlite3_connect : string -> result database.

Local Abbreviation strings_loop ps :=
  (for_each ps (fun '(table, column) => string_column table column)).
Local Abbreviation literal column :=
  (fun row => if endswith column "number" then q (str row) else q ("'" ++ str row ++ "'")%string).
Local Abbreviation col_refs tables :=
  (map (fun '(table, column) => col_ref_production table column) (pairs tables)).
Local Abbreviation biexprs_of tables :=
  (map (fun '(table, column) => biexpr_production table column) (pairs tables)).

(** *** The schema block *)

Lemma col_ref_loop (tables : dict) : forall (acc : list string) (d : dict) (s : self),
  for_each tables
    (fun '(table, columns) =>
       col_ref <- get_item "col_ref" ;;
       set_item "col_ref" (col_ref ++ map (col_ref_production table) columns))
    (with_dictionary (dict_set "col_ref" acc d) s)
  = (Ok tt, with_dictionary (dict_set "col_ref" (acc ++ col_refs tables) d) s).
Proof.
  induction tables as [|[table columns] tables IH]; intros acc d s.
  - simpl. now rewrite app_nil_r.
  - rewrite pairs_cons, map_app, map_map, app_assoc.
    rewrite <- IH. simpl for_each. unfold bind at 1.
    unfold get_item, set_item, get_dictionary, set_dictionary, bind, ret. simpl.
    now rewrite alternatives_set_same, dict_set_set.
Qed.

Lemma augment_schema_run (all_tables : option dict) (s : self) :
  augment_schema all_tables s =
  (Ok tt,
   if truthy_dict all_tables
   then with_dictionary
          (dict_set "col_ref"
             (sorted_reverse (q "*" :: col_refs (items all_tables)))
             (dict_set "table_name"
                (sorted_reverse (map q (keys (items all_tables))))
                (grammar_dictionary s)))
          s
   else s).
Proof.
  unfold augment_schema. destruct (truthy_dict all_tables); trivial.
  rewrite !bind_set_item. cbn [grammar_dictionary with_dictionary].
  rewrite with_dictionary_twice.
  erewrite bind_run by apply col_ref_loop.
  rewrite bind_get_item, set_item_run.
  cbn [grammar_dictionary with_dictionary].
  now rewrite alternatives_set_same, dict_set_set, with_dictionary_twice.
Qed.

(** *** The string-constraint block *)

Lemma string_column_no_cursor (table column : string) (s : self) :
  self_cursor s = None ->
  string_column table column s = (Raise AttributeError, s).
Proof.
  intros H. unfold string_column, bind, cursor_execute. now rewrite H.
Qed.

Lemma string_column_run (table column : string) (s : self) (cur : cursor) :
  self_cursor s = Some cur ->
  string_column table column s =
  match cur_database cur (distinct_query table column) with
  | Ok rows =>
      (Ok tt,
       {| grammar_dictionary :=
            dict_set (string_nonterminal table column)
                     (sorted_reverse (map (literal column) rows))
                     (grammar_dictionary s);
          self_connection := self_connection s;
          self_cursor := Some {| cur_database := cur_database cur; cur_rows := [] |};
          executed := executed s ++ [distinct_query table column] |})
  | Raise e =>
      (Raise e,
       {| grammar_dictionary := grammar_dictionary s;
          self_connection := self_connection s;
          self_cursor := Some {| cur_database := cur_database cur; cur_rows := [] |};
          executed := executed s ++ [distinct_query table column] |})
  end.
Proof.
  intros H. unfold string_column, bind, cursor_execute. rewrite H.
  destruct (cur_database cur (distinct_query table column)) as [rows|e]; trivial.
  destruct (endswith column "number"); reflexivity.
Qed.

(** A column leaves the connection alone, and every nonterminal but its own. *)
Lemma string_column_frame (table column : string) (s s' : self) (r : result unit) :
  string_column table column s = (r, s') ->
  self_connection s' = self_connection s /\
  forall k, k <> string_nonterminal table column ->
            dict_get k (grammar_dictionary s') = dict_get k (grammar_dictionary s).
Proof.
  destruct (self_cursor s) as [cur|] eqn:Hc.
  - rewrite (string_column_run _ _ _ Hc).
    destruct (cur_database cur _); intros [= <- <-]; simpl; split; trivial.
    intros k Hk. now apply dict_get_set_other.
  - rewrite (string_column_no_cursor _ _ _ Hc). intros [= <- <-]. now split.
Qed.

Lemma not_rewritten_cons (k table column : string) (ps : list (string * string)) :
  not_rewritten k ((table, column) :: ps) = true ->
  k <> string_nonterminal table column /\ not_rewritten k ps = true.
Proof.
  unfold not_rewritten. simpl. intros H. apply andb_true_iff in H as [H1 H2].
  split; trivial. apply negb_true_iff, String.eqb_neq in H1. congruence.
Qed.

Lemma strings_loop_frame (ps : list (string * string)) :
  forall (s s' : self) (r : result unit),
    strings_loop ps s = (r, s') ->
    self_connection s' = self_connection s /\
    forall k, not_rewritten k ps = true ->
              dict_get k (grammar_dictionary s') = dict_get k (grammar_dictionary s).
Proof.
  induction ps as [|[table column] ps IH]; intros s s' r; simpl.
  - intros [= <- <-]. now split.
  - unfold bind. destruct (string_column table column s) as [[[]|e] s1] eqn:H1.
    + intros H2. apply string_column_frame in H1 as [Hc1 Hd1].
      apply IH in H2 as [Hc2 Hd2]. split; [congruence|].
      intros k Hk. apply not_rewritten_cons in Hk as [Hk1 Hk2].
      now rewrite Hd2, Hd1.
    + intros [= <- <-]. apply string_column_frame in H1 as [Hc1 Hd1].
      split; trivial. intros k Hk. apply not_rewritten_cons in Hk as [Hk1 Hk2]. auto.
Qed.

Lemma not_rewritten_other (k : string) (ps : list (string * string)) :
  endswith k "_string" = false -> not_rewritten k ps = true.
Proof.
  intros Hk. unfold not_rewritten. apply forallb_forall. intros [table column] _.
  apply negb_true_iff, String.eqb_neq. intros Heq.
  now apply (string_nonterminal_neq table column Hk).
Qed.

(** Without a cursor the first column raises, before any statement runs. *)
Lemma strings_loop_no_cursor (ps : list (string * string)) (s : self) :
  self_cursor s = None -> ps <> [] ->
  strings_loop ps s = (Raise AttributeError, s).
Proof.
  intros Hc Hps. destruct ps as [|[table column] ps]; [congruence|].
  simpl. unfold bind. now rewrite (string_column_no_cursor _ _ _ Hc).
Qed.

(** After a loop that returned, a nonterminal holds the literals of the
    last pair that wrote it. *)
Lemma strings_loop_ok (ps : list (string * string)) :
  forall (s s' : self) (cur : cursor),
    self_cursor s = Some cur ->
    strings_loop ps s = (Ok tt, s') ->
    forall pre table column post,
      ps = pre ++ (table, column) :: post ->
      not_rewritten (string_nonterminal table column) post = true ->
      exists rows,
        cur_database cur (distinct_query table column) = Ok rows /\
        alternatives (string_nonterminal table column) (grammar_dictionary s')
        = sorted_reverse (map (literal column) rows).
Proof.
  induction ps as [|[t c] ps IH]; intros s s' cur Hc Hrun pre table column post Hps Hpost.
  - now destruct pre.
  - simpl in Hrun. unfold bind in Hrun.
    rewrite (string_column_run _ _ _ Hc) in Hrun.
    destruct (cur_database cur (distinct_query t c)) as [rows|e] eqn:Hq; [|discriminate].
    destruct pre as [|p pre]; simpl in Hps.
    + injection Hps as -> -> ->. exists rows. split; trivial.
      apply strings_loop_frame in Hrun as [_ Hd].
      unfold alternatives. rewrite (Hd _ Hpost). simpl.
      now rewrite dict_get_set_same.
    + injection Hps as <- ->.
      refine (IH _ s' {| cur_database := cur_database cur; cur_rows := [] |}
                 _ Hrun pre table column post eq_refl Hpost).
      reflexivity.
Qed.

Lemma strings_loop_flat (tables : dict) : forall (acc : list string) (s : self),
  for_each_acc tables acc
    (fun biexprs '(table, columns) =>
       let biexprs := biexprs ++ map (biexpr_production table) columns in
       for_each columns (string_column table) ;;
       ret biexprs) s
  = match strings_loop (pairs tables) s with
    | (Ok _, s') => (Ok (acc ++ biexprs_of tables), s')
    | (Raise e, s') => (Raise e, s')
    end.
Proof.
  induction tables as [|[table columns] tables IH]; intros acc s.
  - simpl. now rewrite app_nil_r.
  - rewrite pairs_cons, for_each_app. simpl for_each_acc.
    unfold bind, ret. rewrite for_each_pair.
    destruct (for_each columns (string_column table) s) as [[[]|e] s1]; trivial.
    rewrite IH. rewrite map_app, map_map, app_assoc. reflexivity.
Qed.

Lemma constrain_strings_run (tables_with_strings : option dict) (s : self) :
  constrain_strings tables_with_strings s
  = match strings_loop (pairs (items tables_with_strings)) s with
    | (Ok _, s') => (Ok (biexprs_of (items tables_with_strings)), s')
    | (Raise e, s') => (Raise e, s')
    end.
Proof.
  unfold constrain_strings.
  destruct tables_with_strings as [[|p d]|]; trivial.
  unfold truthy_dict. now rewrite strings_loop_flat.
Qed.

(** *** [initialize_grammar_str] and the constructor, step by step *)

Lemma initialize_grammar_str_run (all_tables tables_with_strings : option dict) (s : self) :
  initialize_grammar_str E all_tables tables_with_strings s
  = match strings_loop (pairs (items tables_with_strings))
                       (snd (augment_schema all_tables s)) with
    | (Ok _, s2) =>
        let d := dict_set "biexpr"
                   (sorted_reverse (biexprs_of (items tables_with_strings))
                    ++ biexpr_fallback)
                   (grammar_dictionary s2) in
        (Ok (format_grammar_string E d), with_dictionary d s2)
    | (Raise e, s2) => (Raise e, s2)
    end.
Proof.
  unfold initialize_grammar_str.
  erewrite bind_run by apply augment_schema_run.
  rewrite augment_schema_run. cbn [snd].
  unfold bind at 1. rewrite constrain_strings_run.
  destruct (strings_loop _ _) as [[[]|e] s2]; reflexivity.
Qed.

Lemma augment_schema_connection (all_tables : option dict) (s : self) :
  self_connection (snd (augment_schema all_tables s)) = self_connection s /\
  self_cursor (snd (augment_schema all_tables s)) = self_cursor s /\
  executed (snd (augment_schema all_tables s)) = executed s.
Proof.
  rewrite augment_schema_run. cbn [snd]. now destruct (truthy_dict all_tables).
Qed.

(** [initialize_grammar_str] never touches the connection. *)
Lemma initialize_grammar_str_connection
    (all_tables tables_with_strings : option dict) (s s' : self) (r : result string) :
  initialize_grammar_str E all_tables tables_with_strings s = (r, s') ->
  self_connection s' = self_connection s.
Proof.
  rewrite initialize_grammar_str_run.
  destruct (strings_loop _ _) as [[[]|e] s2] eqn:Hloop;
    apply strings_loop_frame in Hloop as [Hc _]; intros [= <- <-]; simpl;
    rewrite Hc; apply augment_schema_connection.
Qed.

Local Abbreviation base := (with_dictionary GRAMMAR_DICTIONARY new_self).
Local Abbreviation opened db := (snd (open_connection db base)).

Lemma connect_database_run (database_file : option string) :
  connect_database E sqlite3_connect database_file base =
  match database_file with
  | Some (String x f) =>
      match cached_path E (String x f) with
      | Ok path =>
          match sqlite3_connect path with
          | Ok db => (Ok tt, opened db)
          | Raise e => (Raise e, base)
          end
      | Raise e => (Raise e, base)
      end
  | _ => (Ok tt, base)
  end.
Proof.
  unfold connect_database. destruct database_file as [[|x f]|]; reflexivity.
Qed.

(** After the connection block either nothing was opened, or the
    connection is open and stays with [self]. *)
Lemma connect_database_connection (database_file : option string) (s0 : self) (r : result unit) :
  connect_database E sqlite3_connect database_file base = (r, s0) ->
  grammar_dictionary s0 = GRAMMAR_DICTIONARY /\ executed s0 = [] /\
  match r with
  | Ok _ =>
      if truthy_str database_file
      then exists f path db,
          database_file = Some f /\ cached_path E f = Ok path /\
          sqlite3_connect path = Ok db /\ s0 = opened db
      else s0 = base
  | Raise _ => s0 = base
  end.
Proof.
  rewrite connect_database_run. destruct database_file as [[|x f]|]; simpl.
  1, 3: intros [= <- <-]; auto.
  destruct (cached_path E (String x f)) as [path|e] eqn:Hp.
  - destruct (sqlite3_connect path) as [db|e] eqn:Hdb; intros [= <- <-]; auto.
    repeat split. now exists (String x f), path, db.
  - intros [= <- <-]; auto.
Qed.

Lemma construct_run (all_tables tables_with_strings : option dict)
    (database_file : option string) :
  construct E sqlite3_connect all_tables tables_with_strings database_file =
  match connect_database E sqlite3_connect database_file base with
  | (Ok _, s0) =>
      match initialize_grammar_str E all_tables tables_with_strings s0 with
      | (Ok text, s1) =>
          match Grammar E text with
          | Ok g =>
              (Ok {| get_grammar_dictionary := grammar_dictionary s1;
                     get_valid_actions := initialize_valid_actions E g KEYWORDS |},
               if truthy_str database_file then snd (connection_close s1) else s1)
          | Raise e => (Raise e, s1)
          end
      | (Raise e, s1) => (Raise e, s1)
      end
  | (Raise e, s0) => (Raise e, s0)
  end.
Proof.
  unfold construct, init.
  unfold bind at 1. unfold set_dictionary at 1.
  unfold bind at 1.
  destruct (connect_database _ _ _ _) as [[[]|e] s0] eqn:H0; trivial.
  unfold bind at 1.
  destruct (initialize_grammar_str _ _ _ _) as [[text|e] s1] eqn:H1; trivial.
  unfold bind at 1. unfold lift at 1.
  destruct (Grammar E text) as [g|e]; trivial.
  apply connect_database_connection in H0 as (_ & _ & H0).
  apply initialize_grammar_str_connection in H1.
  destruct (truthy_str database_file).
  - destruct H0 as (f & path & db & _ & _ & _ & ->). simpl in H1.
    unfold bind, connection_close. rewrite H1. reflexivity.
  - reflexivity.
Qed.

(** What a returned context tells about the run that made it. *)
Lemma construct_ok (all_tables tables_with_strings : option dict)
    (database_file : option string) (c : context) (s : self) :
  construct E sqlite3_connect all_tables tables_with_strings database_file = (Ok c, s) ->
  exists s0 s2 g,
    connect_database E sqlite3_connect database_file base = (Ok tt, s0) /\
    strings_loop (pairs (items tables_with_strings)) (snd (augment_schema all_tables s0))
    = (Ok tt, s2) /\
    get_grammar_dictionary c
    = dict_set "biexpr"
        (sorted_reverse (biexprs_of (items tables_with_strings)) ++ biexpr_fallback)
        (grammar_dictionary s2) /\
    Grammar E (format_grammar_string E (get_grammar_dictionary c)) = Ok g /\
    get_valid_actions c = initialize_valid_actions E g KEYWORDS.
Proof.
  rewrite construct_run.
  destruct (connect_database _ _ _ _) as [[[]|e] s0] eqn:H0; [|now intros [=]].
  rewrite initialize_grammar_str_run.
  destruct (strings_loop _ _) as [[[]|e] s2] eqn:H2; cbv beta iota zeta;
    [|now intros [=]].
  destruct (Grammar E _) as [g|e] eqn:Hg; [|now intros [=]].
  intros [= <- _]. exists s0, s2, g. simpl. auto.
Qed.
End Construction.

(** ** The schema in the grammar *)

(** C6: a context constructed from a schema with N tables (its keys unique)
    has exactly N alternatives for [table_name]; they are the table names,
    each between two double quote characters, and they stand in strictly
    descending order of the strings.  A schema without tables leaves
    [table_name] without alternatives. *)
Theorem table_name_alternatives
    (E : externals) (sqlite3_connect : string -> result database)
    (tables : dict) (tables_with_strings : option dict) (database_file : option string)
    (c : context) (s : self) :
  NoDup (map fst tables) ->
  construct E sqlite3_connect (Some tables) tables_with_strings database_file = (Ok c, s) ->
  length (alternatives "table_name" (get_grammar_dictionary c)) = length tables /\
  Permutation (alternatives "table_name" (get_grammar_dictionary c))
    (map (fun '(table, _) =>
            String "034"%char (table ++ String "034"%char EmptyString)%string)
         tables) /\
  StronglySorted (fun a b => String.ltb b a = true)
                 (alternatives "table_name" (get_grammar_dictionary c)).
Proof.
  intros Hkeys Hc.
  apply construct_ok in Hc as (s0 & s2 & g & H0 & H2 & Hd & _).
  apply connect_database_connection in H0 as (Hbase & _).
  apply strings_loop_frame in H2 as [_ H2].
  assert (Halt : alternatives "table_name" (get_grammar_dictionary c)
                 = if truthy_dict (Some tables)
                   then sorted_reverse (map q (keys tables)) else []).
  { rewrite Hd, alternatives_set_other by discriminate.
    unfold alternatives at 1. rewrite H2 by now apply not_rewritten_other.
    rewrite augment_schema_run. cbn [snd]. destruct tables as [|p tables].
    - simpl truthy_dict. cbv iota. now rewrite Hbase.
    - simpl truthy_dict. cbv iota. cbn [grammar_dictionary with_dictionary items].
      rewrite dict_get_set_other by discriminate.
      now rewrite dict_get_set_same. }
  assert (Hquoted : map q (keys tables)
                    = map (fun '(table, _) =>
                             String "034"%char (table ++ String "034"%char EmptyString)%string)
                          tables).
  { unfold keys. rewrite map_map. apply map_ext. now intros [table columns]. }
  rewrite Halt. destruct tables as [|p tables]; simpl truthy_dict; cbv iota.
  - repeat split; constructor.
  - rewrite <- Hquoted. split; [|split].
    + unfold keys. now rewrite sorted_reverse_length, !length_map.
    + apply sorted_reverse_perm.
    + apply (descending_strict (l := sorted_reverse (map q (keys (p :: tables)))));
        [|apply sorted_reverse_descending].
      apply (Permutation_NoDup (Permutation_sym (sorted_reverse_perm _))).
      apply Finite.Injective_map_NoDup; [exact q_injective | exact Hkeys].
Qed.

Lemma table_name_alternatives_witness :
  exists c,
    fst (construct Sample.E Sample.connect (Some Sample.two_tables) None None) = Ok c /\
    alternatives "table_name" (get_grammar_dictionary c)
    = [ String "034"%char ("flight" ++ String "034"%char EmptyString)%string;
        String "034"%char ("city" ++ String "034"%char EmptyString)%string ] /\
    length (alternatives "table_name" (get_grammar_dictionary c)) = 2 /\
    StronglySorted (fun a b => String.ltb b a = true)
                   (alternatives "table_name" (get_grammar_dictionary c)).
Proof.
  destruct (construct Sample.E Sample.connect (Some Sample.two_tables) None None)
    as [[c|e] s] eqn:Hc; [|vm_compute in Hc; discriminate].
  exists c. split; [reflexivity|].
  destruct (@table_name_alternatives Sample.E Sample.connect Sample.two_tables
              None None c s) as (Hlen & _ & Hsorted).
  - repeat constructor; simpl; intuition discriminate.
  - exact Hc.
  - split; [|split; [exact Hlen | exact Hsorted]].
    vm_compute in Hc. injection Hc as <- _. reflexivity.
Defined.

(** C2, as the code has it: for the schema [{"city": ["city_name", "state"]}]
    without string constraints, [table_name] is the one quoted table and
    [col_ref] is the three-element list with the [state] alternative before
    the [city_name] alternative and the wildcard last, since the whole list
    is sorted in descending order and a double quote is smaller than an
    opening parenthesis. *)
Theorem city_schema_grammar
    (E : externals) (sqlite3_connect : string -> result database) :
  let r := construct E sqlite3_connect (Some [("city", ["city_name"; "state"])]) None None in
  alternatives "table_name" (grammar_dictionary (snd r)) = [q "city"] /\
  alternatives "col_ref" (grammar_dictionary (snd r))
  = [ ("(" ++ q "city" ++ " ws " ++ q "." ++ " ws " ++ q "state" ++ ")")%string;
      ("(" ++ q "city" ++ " ws " ++ q "." ++ " ws " ++ q "city_name" ++ ")")%string;
      q "*" ] /\
  match fst r with
  | Ok c => get_grammar_dictionary c = grammar_dictionary (snd r)
  | Raise e =>
      Grammar E (format_grammar_string E (grammar_dictionary (snd r))) = Raise e
  end.
Proof.
  cbv zeta. rewrite construct_run, connect_database_run, initialize_grammar_str_run.
  cbn [items pairs flat_map for_each ret]. cbv beta iota zeta.
  destruct (Grammar E _) as [g|e] eqn:Hg; cbn [fst snd truthy_str];
    repeat split; try reflexivity; exact Hg.
Qed.

(** C2, as stated: the wildcard is not the first alternative of [col_ref]. *)
Lemma city_schema_wildcard_not_first :
  alternatives "col_ref"
    (grammar_dictionary
       (snd (construct Sample.E Sample.connect
               (Some [("city", ["city_name"; "state"])]) None None)))
  <> [ q "*";
       ("(" ++ q "city" ++ " ws " ++ q "." ++ " ws " ++ q "state" ++ ")")%string;
       ("(" ++ q "city" ++ " ws " ++ q "." ++ " ws " ++ q "city_name" ++ ")")%string ].
Proof. vm_compute. discriminate. Qed.

(** ** The string constraints in the grammar *)

(** C1, as the code has it: in a constructed context the [biexpr] list is
    the synthesized productions, one per constrained (table, column) pair,
    sorted in descending order (not in the order the pairs were processed),
    followed by the two generic alternatives as its last two entries. *)
Theorem biexpr_alternatives
    (E : externals) (sqlite3_connect : string -> result database)
    (all_tables tables_with_strings : option dict) (database_file : option string)
    (c : context) (s : self) :
  construct E sqlite3_connect all_tables tables_with_strings database_file = (Ok c, s) ->
  exists synthesized,
    alternatives "biexpr" (get_grammar_dictionary c)
    = synthesized ++ ["( col_ref ws binaryop ws value)"; "(value ws binaryop ws value)"]
    /\
    Permutation synthesized
      (map (fun '(table, column) =>
              ("(" ++ q table ++ " ws " ++ q "." ++ " ws " ++ q column
                   ++ " ws binaryop ws " ++ (table ++ "_" ++ column ++ "_string")
                   ++ ")")%string)
           (pairs (items tables_with_strings)))
    /\
    StronglySorted str_ge synthesized.
Proof.
  intros Hc. apply construct_ok in Hc as (s0 & s2 & g & _ & _ & Hd & _).
  exists (sorted_reverse
            (map (fun '(table, column) => biexpr_production table column)
                 (pairs (items tables_with_strings)))).
  rewrite Hd, alternatives_set_same. split; [reflexivity|]. split.
  - exact (sorted_reverse_perm _).
  - apply sorted_reverse_descending.
Qed.

Lemma biexpr_alternatives_witness :
  exists c synthesized,
    fst (construct Sample.E Sample.connect (Some Sample.city_schema)
                   (Some Sample.city_schema) (Some "atis.db")) = Ok c /\
    alternatives "biexpr" (get_grammar_dictionary c)
    = synthesized ++ ["( col_ref ws binaryop ws value)"; "(value ws binaryop ws value)"] /\
    StronglySorted str_ge synthesized.
Proof.
  destruct (construct Sample.E Sample.connect (Some Sample.city_schema)
                      (Some Sample.city_schema) (Some "atis.db"))
    as [[c|e] s] eqn:Hc; [|vm_compute in Hc; discriminate].
  destruct (biexpr_alternatives _ _ _ _ _ Hc) as (synthesized & Heq & _ & Hsorted).
  exists c, synthesized. split; [reflexivity | split; assumption].
Defined.

(** C1, as stated: the synthesized productions do not stand in the order
    the pairs were processed.  For the constraints
    [{"city": ["city_name", "state"]}] the pair of [city_name] is processed
    first and its production comes second. *)
Lemma biexpr_not_in_processing_order :
  exists c,
    fst (construct Sample.E Sample.connect (Some Sample.city_schema)
                   (Some [("city", ["city_name"; "state"])]) (Some "atis.db")) = Ok c /\
    alternatives "biexpr" (get_grammar_dictionary c)
    <> map (fun '(table, column) => biexpr_production table column)
           (pairs [("city", ["city_name"; "state"])])
       ++ ["( col_ref ws binaryop ws value)"; "(value ws binaryop ws value)"].
Proof.
  eexists. split; [vm_compute; reflexivity|]. vm_compute. discriminate.
Qed.

(** A context constructed under constraints that name a pair was made with
    a database: the loop over the pairs ran on its cursor and returned. *)
Lemma constructed_with_cursor
    (E : externals) (sqlite3_connect : string -> result database)
    (all_tables tables_with_strings : option dict) (database_file : option string)
    (c : context) (s : self) :
  construct E sqlite3_connect all_tables tables_with_strings database_file = (Ok c, s) ->
  pairs (items tables_with_strings) <> [] ->
  exists f path db s1 s2,
    database_file = Some f /\ cached_path E f = Ok path /\
    sqlite3_connect path = Ok db /\
    self_cursor s1 = Some {| cur_database := db; cur_rows := [] |} /\
    for_each (pairs (items tables_with_strings))
             (fun '(table, column) => string_column table column) s1 = (Ok tt, s2) /\
    forall k, k <> "biexpr" ->
              alternatives k (get_grammar_dictionary c) = alternatives k (grammar_dictionary s2).
Proof.
  intros Hc Hps.
  apply construct_ok in Hc as (s0 & s2 & g & H0 & H2 & Hd & _).
  apply connect_database_connection in H0 as (_ & _ & H0).
  destruct (truthy_str database_file).
  - destruct H0 as (f & path & db & Hf & Hp & Hdb & ->).
    exists f, path, db, (snd (augment_schema all_tables (snd (open_connection db
                  (with_dictionary GRAMMAR_DICTIONARY new_self))))), s2.
    repeat split; trivial.
    + now destruct (augment_schema_connection all_tables (snd (open_connection db
                  (with_dictionary GRAMMAR_DICTIONARY new_self)))) as (_ & -> & _).
    + intros k Hk. now rewrite Hd, alternatives_set_other.
  - subst s0. exfalso.
    pose proof (augment_schema_connection all_tables
                  (with_dictionary GRAMMAR_DICTIONARY new_self)) as (_ & Hcur & _).
    rewrite strings_loop_no_cursor in H2; [discriminate | exact Hcur | exact Hps].
Qed.

(** The state in which construction enters the loop over the constrained
    pairs, and the loop returning from it. *)
Lemma constructed_loop_start
    (E : externals) (sqlite3_connect : string -> result database)
    (all_tables tables_with_strings : option dict) (database_file : option string)
    (c : context) (s : self) :
  construct E sqlite3_connect all_tables tables_with_strings database_file = (Ok c, s) ->
  pairs (items tables_with_strings) <> [] ->
  exists f path db s2,
    database_file = Some f /\ cached_path E f = Ok path /\
    sqlite3_connect path = Ok db /\
    for_each (pairs (items tables_with_strings))
             (fun '(table, column) => string_column table column)
             (snd (augment_schema all_tables
                     (snd (open_connection db (with_dictionary GRAMMAR_DICTIONARY new_self)))))
    = (Ok tt, s2) /\
    forall k, k <> "biexpr" ->
              alternatives k (get_grammar_dictionary c) = alternatives k (grammar_dictionary s2).
Proof.
  intros Hc Hps.
  apply construct_ok in Hc as (s0 & s2 & g & H0 & H2 & Hd & _).
  apply connect_database_connection in H0 as (_ & _ & H0).
  destruct (truthy_str database_file).
  - destruct H0 as (f & path & db & Hf & Hp & Hdb & ->).
    exists f, path, db, s2. repeat split; trivial.
    intros k Hk. now rewrite Hd, alternatives_set_other.
  - subst s0. exfalso.
    pose proof (augment_schema_connection all_tables
                  (with_dictionary GRAMMAR_DICTIONARY new_self)) as (_ & Hcur & _).
    rewrite strings_loop_no_cursor in H2; [discriminate | exact Hcur | exact Hps].
Qed.

Lemma not_rewritten_iff (name : string) (later : list (string * string)) :
  not_rewritten name later = true <->
  forall table column, In (table, column) later -> string_nonterminal table column <> name.
Proof.
  unfold not_rewritten. rewrite forallb_forall. split.
  - intros H table column Hin. specialize (H _ Hin). simpl in H.
    now apply negb_true_iff, String.eqb_neq in H.
  - intros H [table column] Hin. apply negb_true_iff, String.eqb_neq. now apply H.
Qed.

(** C8: for every constrained (table, column) pair of a constructed
    context, the database answered the distinct-value query of the pair, and
    once the loop has gone through that pair, the nonterminal of the pair
    holds one literal per returned value, in descending order: the value
    between two double quote characters when the column name is something
    followed by [number], and the value between single quotes inside the
    double quotes for every other column name.  The context holds these
    literals unless a later pair writes the same nonterminal. *)
Theorem string_literals_by_column_name
    (E : externals) (sqlite3_connect : string -> result database)
    (all_tables tables_with_strings : option dict) (database_file : option string)
    (c : context) (s : self)
    (pre post : list (string * string)) (table column : string) :
  construct E sqlite3_connect all_tables tables_with_strings database_file = (Ok c, s) ->
  pairs (items tables_with_strings) = pre ++ (table, column) :: post ->
  exists f path db rows literals s_mid,
    database_file = Some f /\ cached_path E f = Ok path /\
    sqlite3_connect path = Ok db /\
    db ("SELECT DISTINCT " ++ table ++ " . " ++ column ++ " FROM " ++ table)%string = Ok rows /\
    StronglySorted (fun a b => String.ltb a b = false) literals /\
    ((exists prefix, column = (prefix ++ "number")%string) ->
     Permutation literals
       (map (fun v => String "034"%char (str v ++ String "034"%char EmptyString)%string)
            rows)) /\
    ((forall prefix, column <> (prefix ++ "number")%string) ->
     Permutation literals
       (map (fun v => String "034"%char
                        (("'" ++ str v ++ "'") ++ String "034"%char EmptyString)%string)
            rows)) /\
    for_each (pre ++ [(table, column)])
             (fun '(table, column) => string_column table column)
             (snd (augment_schema all_tables
                     (snd (open_connection db (with_dictionary GRAMMAR_DICTIONARY new_self)))))
    = (Ok tt, s_mid) /\
    alternatives (table ++ "_" ++ column ++ "_string")%string (grammar_dictionary s_mid)
    = literals /\
    ((forall table' column',
         In (table', column') post ->
         (table' ++ "_" ++ column' ++ "_string")%string
         <> (table ++ "_" ++ column ++ "_string")%string) ->
     alternatives (table ++ "_" ++ column ++ "_string")%string (get_grammar_dictionary c)
     = literals).
Proof.
  intros Hc Hps.
  apply constructed_loop_start in Hc as (f & path & db & s2 & Hf & Hp & Hdb & Hloop & Hd).
  2: { rewrite Hps. now destruct pre. }
  pose proof (augment_schema_connection all_tables
                (snd (open_connection db (with_dictionary GRAMMAR_DICTIONARY new_self))))
    as (_ & Hcur & _).
  change (self_cursor (snd (open_connection db _)))
    with (Some {| cur_database := db; cur_rows := [] |}) in Hcur.
  rewrite Hps in Hloop.
  assert (Hmid : exists s_mid,
             for_each (pre ++ [(table, column)])
                      (fun '(table, column) => string_column table column)
                      (snd (augment_schema all_tables
                              (snd (open_connection db
                                      (with_dictionary GRAMMAR_DICTIONARY new_self)))))
             = (Ok tt, s_mid)).
  { change (pre ++ (table, column) :: post)
      with (pre ++ ([(table, column)] ++ post)) in Hloop.
    rewrite app_assoc, for_each_app in Hloop. unfold bind in Hloop.
    destruct (for_each (pre ++ [(table, column)]) _ _) as [[[]|e] s_mid];
      [now exists s_mid | discriminate]. }
  destruct Hmid as [s_mid Hmid].
  edestruct strings_loop_ok with (post := @nil (string * string)) as (rows & Hq & Ha);
    [exact Hcur | exact Hmid | reflexivity | reflexivity |].
  exists f, path, db, rows,
    (sorted_reverse
       (map (fun row => if endswith column "number"
                        then q (str row) else q ("'" ++ str row ++ "'")%string) rows)),
    s_mid.
  repeat split; trivial.
  - exact (sorted_reverse_descending _).
  - intros Hnumber. apply endswith_iff in Hnumber. rewrite Hnumber.
    exact (sorted_reverse_perm _).
  - intros Hother. destruct (endswith column "number") eqn:Hends;
      [|exact (sorted_reverse_perm _)].
    apply endswith_iff in Hends as [prefix ->]. now contradiction (Hother prefix).
  - intros Hpost. apply not_rewritten_iff in Hpost.
    edestruct strings_loop_ok as (rows' & Hq' & Ha');
      [exact Hcur | exact Hloop | reflexivity | exact Hpost |].
    rewrite Hd; [|apply not_eq_sym, string_nonterminal_neq; reflexivity].
    simpl in Hq, Hq'. rewrite Hq in Hq'. injection Hq' as <-. exact Ha'.
Qed.

Lemma string_literals_by_column_name_witness :
  exists c,
    fst (construct Sample.E Flights.connect (Some Sample.two_tables)
                   (Some Flights.constraints) (Some "atis.db")) = Ok c /\
    alternatives "flight_flight_number_string" (get_grammar_dictionary c)
    = [ String "034"%char ("7" ++ String "034"%char EmptyString)%string;
        String "034"%char ("305" ++ String "034"%char EmptyString)%string;
        String "034"%char ("12" ++ String "034"%char EmptyString)%string ] /\
    alternatives "city_state_string" (get_grammar_dictionary c)
    = [ String "034"%char ("'TX'" ++ String "034"%char EmptyString)%string;
        String "034"%char ("'CA'" ++ String "034"%char EmptyString)%string ] /\
    Permutation (alternatives "flight_flight_number_string" (get_grammar_dictionary c))
      (map (fun v => String "034"%char (str v ++ String "034"%char EmptyString)%string)
           [SqlInteger 12; SqlInteger 7; SqlInteger 305]).
Proof.
  destruct (construct Sample.E Flights.connect (Some Sample.two_tables)
                      (Some Flights.constraints) (Some "atis.db"))
    as [[c|e] s] eqn:Hc; [|vm_compute in Hc; discriminate].
  exists c. split; [reflexivity|].
  destruct (@string_literals_by_column_name _ _ _ _ _ c s
              [] [("city", "state")] "flight" "flight_number" Hc eq_refl)
    as (f & path & db & rows & literals & s_mid
        & _ & _ & Hdb & Hq & _ & Hnumber & _ & _ & _ & Hfinal).
  injection Hdb as <-. vm_compute in Hq. injection Hq as <-.
  assert (Hheld : alternatives "flight_flight_number_string" (get_grammar_dictionary c)
                  = literals).
  { apply Hfinal. intros table' column' [[= <- <-]|[]]. discriminate. }
  split; [|split].
  - vm_compute in Hc. injection Hc as <- _. reflexivity.
  - vm_compute in Hc. injection Hc as <- _. reflexivity.
  - rewrite Hheld. apply Hnumber. exists "flight_". reflexivity.
Defined.

(** C7: for the constraints [{"city": ["state"]}] and a data source whose
    column [city.state] holds CA, TX, CA, and which answers the statement
    [SELECT DISTINCT city . state FROM city] with every value of the column
    once, in whatever order, a constructed context has the nonterminal
    [city_state_string] with exactly two alternatives, the single-quoted
    literal of TX before that of CA. *)
Theorem city_state_string_alternatives
    (E : externals) (sqlite3_connect : string -> result database)
    (all_tables : option dict) (database_file : option string)
    (c : context) (s : self) :
  (forall path db rows,
      sqlite3_connect path = Ok db ->
      db "SELECT DISTINCT city . state FROM city" = Ok rows ->
      NoDup rows /\
      forall v, In v rows <-> In v [SqlText "CA"; SqlText "TX"; SqlText "CA"]) ->
  construct E sqlite3_connect all_tables (Some [("city", ["state"])]) database_file
  = (Ok c, s) ->
  alternatives "city_state_string" (get_grammar_dictionary c)
  = [ String "034"%char ("'TX'" ++ String "034"%char EmptyString)%string;
      String "034"%char ("'CA'" ++ String "034"%char EmptyString)%string ].
Proof.
  intros Hsource Hc.
  apply constructed_with_cursor in Hc
    as (f & path & db & s1 & s2 & _ & _ & Hdb & Hcur & Hloop & Hd); [|discriminate].
  edestruct strings_loop_ok with (pre := @nil (string * string))
    as (rows & Hq & Ha); [exact Hcur | exact Hloop | reflexivity | reflexivity |].
  simpl in Hq. rewrite Hd by discriminate.
  change (string_nonterminal "city" "state") with "city_state_string" in Ha.
  rewrite Ha.
  destruct (Hsource _ _ _ Hdb Hq) as [Hnodup Hsame].
  assert (HP : Permutation rows [SqlText "TX"; SqlText "CA"]).
  { apply NoDup_Permutation; trivial.
    - repeat constructor; simpl; intuition discriminate.
    - intros v. rewrite Hsame. simpl. intuition. }
  rewrite (sorted_reverse_of_perm (Permutation_map _ HP)). reflexivity.
Qed.

Lemma city_state_string_alternatives_witness :
  exists c,
    fst (construct Sample.E Flights.connect (Some Sample.city_schema)
                   (Some [("city", ["state"])]) (Some "atis.db")) = Ok c /\
    alternatives "city_state_string" (get_grammar_dictionary c)
    = [ String "034"%char ("'TX'" ++ String "034"%char EmptyString)%string;
        String "034"%char ("'CA'" ++ String "034"%char EmptyString)%string ].
Proof.
  destruct (construct Sample.E Flights.connect (Some Sample.city_schema)
                      (Some [("city", ["state"])]) (Some "atis.db"))
    as [[c|e] s] eqn:Hc; [|vm_compute in Hc; discriminate].
  exists c. split; [reflexivity|].
  apply (@city_state_string_alternatives Sample.E Flights.connect
           (Some Sample.city_schema) (Some "atis.db") c s); [|exact Hc].
  intros path db rows [= <-]. vm_compute. intros [= <-]. split.
  - repeat constructor; simpl; intuition discriminate.
  - intros v. simpl. intuition.
Defined.

(** ** Construction without a schema, without a database *)

Lemma connection_close_dictionary (s : self) :
  grammar_dictionary (snd (connection_close s)) = grammar_dictionary s.
Proof. unfold connection_close. now destruct (self_connection s). Qed.

(** What [initialize_grammar_str] leaves of a nonterminal that is neither
    [biexpr] nor one of the string nonterminals, whether it returns or raises. *)
Lemma initialize_grammar_str_frame
    (E : externals) (all_tables tables_with_strings : option dict)
    (s s' : self) (r : result string) (k : string) :
  initialize_grammar_str E all_tables tables_with_strings s = (r, s') ->
  endswith k "_string" = false -> k <> "biexpr" ->
  dict_get k (grammar_dictionary s')
  = dict_get k (grammar_dictionary (snd (augment_schema all_tables s))).
Proof.
  rewrite initialize_grammar_str_run. intros H Hk Hb.
  destruct (for_each _ _ _) as [[[]|e] s2] eqn:Hloop;
    apply strings_loop_frame in Hloop as [_ Hd];
    injection H as <- <-; simpl.
  - rewrite dict_get_set_other by exact Hb. now apply Hd, not_rewritten_other.
  - now apply Hd, not_rewritten_other.
Qed.

(** C9: when no schema is supplied, the entries [table_name] and [col_ref]
    of the grammar dictionary are, at the end of construction and in the
    context it returns, exactly those of the base grammar. *)
Theorem no_schema_keeps_template
    (E : externals) (sqlite3_connect : string -> result database)
    (tables_with_strings : option dict) (database_file : option string) :
  let r := construct E sqlite3_connect None tables_with_strings database_file in
  (dict_get "table_name" (grammar_dictionary (snd r)) = dict_get "table_name" GRAMMAR_DICTIONARY /\
   dict_get "col_ref" (grammar_dictionary (snd r)) = dict_get "col_ref" GRAMMAR_DICTIONARY) /\
  match fst r with
  | Ok c =>
      dict_get "table_name" (get_grammar_dictionary c) = dict_get "table_name" GRAMMAR_DICTIONARY /\
      dict_get "col_ref" (get_grammar_dictionary c) = dict_get "col_ref" GRAMMAR_DICTIONARY
  | Raise _ => True
  end.
Proof.
  cbv zeta. rewrite construct_run.
  destruct (connect_database _ _ _ _) as [[[]|e] s0] eqn:H0;
    apply connect_database_connection in H0 as (Hbase & _).
  - destruct (initialize_grammar_str _ _ _ _) as [[text|e] s1] eqn:H1.
    + pose proof (@initialize_grammar_str_frame _ _ _ _ _ _ "table_name" H1 eq_refl) as Ht.
      pose proof (@initialize_grammar_str_frame _ _ _ _ _ _ "col_ref" H1 eq_refl) as Hc.
      rewrite augment_schema_run in Ht, Hc. cbn [snd truthy_dict] in Ht, Hc.
      rewrite Hbase in Ht, Hc.
      specialize (Ht ltac:(discriminate)). specialize (Hc ltac:(discriminate)).
      destruct (Grammar E text) as [g|e]; cbn [fst snd get_grammar_dictionary].
      * destruct (truthy_str database_file);
          rewrite ?connection_close_dictionary; auto.
      * auto.
    + pose proof (@initialize_grammar_str_frame _ _ _ _ _ _ "table_name" H1 eq_refl) as Ht.
      pose proof (@initialize_grammar_str_frame _ _ _ _ _ _ "col_ref" H1 eq_refl) as Hc.
      rewrite augment_schema_run in Ht, Hc. cbn [snd truthy_dict] in Ht, Hc.
      rewrite Hbase in Ht, Hc.
      specialize (Ht ltac:(discriminate)). specialize (Hc ltac:(discriminate)).
      cbn [fst snd]. auto.
  - cbn [fst snd]. rewrite Hbase. auto.
Qed.

(** C10, as the code has it: when the string constraints name at least one
    (table, column) pair and no database file is supplied, construction
    raises [AttributeError] at the first distinct-value query: there is no
    cursor, no connection, no statement was executed, and no context is
    returned. *)
Theorem constraints_without_database
    (E : externals) (sqlite3_connect : string -> result database)
    (all_tables tables_with_strings : option dict) (database_file : option string) :
  truthy_str database_file = false ->
  pairs (items tables_with_strings) <> [] ->
  let r := construct E sqlite3_connect all_tables tables_with_strings database_file in
  fst r = Raise AttributeError /\
  self_cursor (snd r) = None /\ self_connection (snd r) = None /\ executed (snd r) = [].
Proof.
  intros Hfile Hpairs. cbv zeta. rewrite construct_run, connect_database_run.
  assert (Hstart : match database_file with
                   | Some (String x f) =>
                       match cached_path E (String x f) with
                       | Ok path =>
                           match sqlite3_connect path with
                           | Ok db => (Ok tt, snd (open_connection db
                                         (with_dictionary GRAMMAR_DICTIONARY new_self)))
                           | Raise e => (Raise e, with_dictionary GRAMMAR_DICTIONARY new_self)
                           end
                       | Raise e => (Raise e, with_dictionary GRAMMAR_DICTIONARY new_self)
                       end
                   | _ => (Ok tt, with_dictionary GRAMMAR_DICTIONARY new_self)
                   end = (Ok tt, with_dictionary GRAMMAR_DICTIONARY new_self)).
  { now destruct database_file as [[|x f]|]. }
  rewrite Hstart, initialize_grammar_str_run.
  pose proof (augment_schema_connection all_tables
                (with_dictionary GRAMMAR_DICTIONARY new_self)) as (Hconn & Hcur & Hex).
  rewrite strings_loop_no_cursor by assumption.
  cbn [fst snd]. rewrite Hconn, Hcur, Hex. auto.
Qed.

Lemma constraints_without_database_witness :
  fst (construct Sample.E Sample.connect (Some Sample.city_schema)
                 (Some [("city", ["state"])]) None) = Raise AttributeError /\
  executed (snd (construct Sample.E Sample.connect (Some Sample.city_schema)
                           (Some [("city", ["state"])]) None)) = [].
Proof.
  destruct (@constraints_without_database Sample.E Sample.connect
              (Some Sample.city_schema) (Some [("city", ["state"])]) None)
    as (Hr & _ & _ & Hex).
  - reflexivity.
  - discriminate.
  - split; [exact Hr | exact Hex].
Defined.

(** C10, as stated: constraints that are not empty but name no column do
    not stop construction without a database file; a context is returned. *)
Lemma constraints_without_columns_construct :
  truthy_dict (Some [("city", @nil string)]) = true /\
  exists c,
    fst (construct Sample.E Sample.connect (Some Sample.city_schema)
                   (Some [("city", [])]) None) = Ok c.
Proof. split; [reflexivity|]. eexists. vm_compute. reflexivity. Qed.

(** ** The connection *)

(** X13: when a database file is supplied and construction returns a
    context, the connection that was opened is closed. *)
Lemma construct_closes_connection
    (E : externals) (sqlite3_connect : string -> result database)
    (all_tables tables_with_strings : option dict) (database_file : option string)
    (c : context) (s : self) :
  truthy_str database_file = true ->
  construct E sqlite3_connect all_tables tables_with_strings database_file = (Ok c, s) ->
  option_map conn_open (self_connection s) = Some false.
Proof.
  intros Hfile. rewrite construct_run, Hfile.
  destruct (connect_database _ _ _ _) as [[[]|e] s0] eqn:H0; [|now intros [=]].
  apply connect_database_connection in H0 as (_ & _ & H0). rewrite Hfile in H0.
  destruct H0 as (f & path & db & _ & _ & _ & ->).
  destruct (initialize_grammar_str _ _ _ _) as [[text|e] s1] eqn:H1; [|now intros [=]].
  apply initialize_grammar_str_connection in H1. simpl in H1.
  destruct (Grammar E text); [|now intros [=]].
  intros [= _ <-]. unfold connection_close. now rewrite H1.
Qed.

(** X14: when construction raises an exception and a connection was
    opened, that connection is left open: nothing closes it on the way out. *)
Lemma construct_failure_leaves_connection
    (E : externals) (sqlite3_connect : string -> result database)
    (all_tables tables_with_strings : option dict) (database_file : option string)
    (e : exception) (s : self) (conn : connection) :
  construct E sqlite3_connect all_tables tables_with_strings database_file = (Raise e, s) ->
  self_connection s = Some conn ->
  conn_open conn = true.
Proof.
  rewrite construct_run.
  destruct (connect_database _ _ _ _) as [[[]|e0] s0] eqn:H0;
    apply connect_database_connection in H0 as (_ & _ & H0).
  - assert (Hs0 : forall conn0, self_connection s0 = Some conn0 -> conn_open conn0 = true).
    { destruct (truthy_str database_file).
      - destruct H0 as (f & path & db & _ & _ & _ & ->). now intros conn0 [= <-].
      - subst s0. discriminate. }
    destruct (initialize_grammar_str _ _ _ _) as [[text|e1] s1] eqn:H1;
      apply initialize_grammar_str_connection in H1.
    + destruct (Grammar E text); [now intros [=]|].
      intros [= _ <-] Hconn. apply Hs0. congruence.
    + intros [= _ <-] Hconn. apply Hs0. congruence.
  - subst s0. intros [= _ <-]. discriminate.
Qed.

(** C3 at a failing input: the constraints name the table [flight], which
    the database does not have; the distinct-value query raises, and
    construction ends with that exception and the connection still open. *)
Theorem query_error_leaves_connection_open :
  let r := construct Sample.E Sample.connect (Some Sample.two_tables)
                     (Some Sample.two_tables) (Some "atis.db") in
  fst r = Raise DataSourceError /\
  option_map conn_open (self_connection (snd r)) = Some true.
Proof. vm_compute. split; reflexivity. Qed.

(** ** Determinism *)

Lemma strings_loop_same_snapshot (ps : list (string * string)) : forall s s' : self,
  grammar_dictionary s = grammar_dictionary s' ->
  match self_cursor s, self_cursor s' with
  | Some cur, Some cur' => same_snapshot (cur_database cur) (cur_database cur')
  | None, None => True
  | _, _ => False
  end ->
  fst (for_each ps (fun '(table, column) => string_column table column) s)
  = fst (for_each ps (fun '(table, column) => string_column table column) s') /\
  grammar_dictionary (snd (for_each ps (fun '(table, column) => string_column table column) s))
  = grammar_dictionary
      (snd (for_each ps (fun '(table, column) => string_column table column) s')).
Proof.
  induction ps as [|[table column] ps IH]; intros s s' Hd Hcur; simpl; [now split|].
  unfold bind.
  destruct (self_cursor s) as [cur|] eqn:Hc, (self_cursor s') as [cur'|] eqn:Hc';
    try contradiction.
  - rewrite (string_column_run _ _ _ Hc), (string_column_run _ _ _ Hc').
    pose proof (Hcur (distinct_query table column)) as Hq. unfold same_answer in Hq.
    destruct (cur_database cur _) as [rows|e], (cur_database cur' _) as [rows'|e'];
      try contradiction.
    + apply IH; simpl; [|exact Hcur].
      rewrite Hd. f_equal. apply sorted_reverse_of_perm. now apply Permutation_map.
    + subst e'. now split.
  - rewrite (string_column_no_cursor _ _ _ Hc), (string_column_no_cursor _ _ _ Hc').
    now split.
Qed.

(** C5: two constructions on the same schema, the same string constraints
    and the same database file, against data sources that hold one snapshot
    and answer every statement alike up to the order of the rows, end
    alike: they return the same context, with identical valid actions and
    grammar dictionary, or raise the same exception. *)
Theorem construction_deterministic
    (E : externals) (sqlite3_connect sqlite3_connect' : string -> result database)
    (all_tables tables_with_strings : option dict) (database_file : option string) :
  (forall path, same_source (sqlite3_connect path) (sqlite3_connect' path)) ->
  fst (construct E sqlite3_connect all_tables tables_with_strings database_file)
  = fst (construct E sqlite3_connect' all_tables tables_with_strings database_file).
Proof.
  intros Hsource. rewrite !construct_run, !connect_database_run.
  destruct database_file as [[|x f]|]; try reflexivity.
  destruct (cached_path E (String x f)) as [path|e]; [|reflexivity].
  specialize (Hsource path). unfold same_source in Hsource.
  destruct (sqlite3_connect path) as [db|e], (sqlite3_connect' path) as [db'|e'];
    try contradiction; [|now subst].
  rewrite !initialize_grammar_str_run.
  destruct (@strings_loop_same_snapshot (pairs (items tables_with_strings))
              (snd (augment_schema all_tables
                      (snd (open_connection db (with_dictionary GRAMMAR_DICTIONARY new_self)))))
              (snd (augment_schema all_tables
                      (snd (open_connection db' (with_dictionary GRAMMAR_DICTIONARY new_self))))))
    as [Hr Hd].
  - rewrite !augment_schema_run. cbn [snd]. now destruct (truthy_dict all_tables).
  - pose proof (augment_schema_connection all_tables
                  (snd (open_connection db (with_dictionary GRAMMAR_DICTIONARY new_self))))
      as (_ & -> & _).
    pose proof (augment_schema_connection all_tables
                  (snd (open_connection db' (with_dictionary GRAMMAR_DICTIONARY new_self))))
      as (_ & -> & _).
    exact Hsource.
  - destruct (for_each _ _ (snd (augment_schema all_tables (snd (open_connection db _)))))
      as [r1 s2].
    destruct (for_each _ _ (snd (augment_schema all_tables (snd (open_connection db' _)))))
      as [r1' s2'].
    cbn [fst snd] in Hr, Hd. subst r1'. destruct r1 as [[]|e]; [|reflexivity].
    cbv zeta. rewrite Hd.
    destruct (Grammar E _) as [g|e]; cbn [fst grammar_dictionary with_dictionary];
      reflexivity.
Qed.

Lemma construction_deterministic_witness :
  fst (construct Sample.E Sample.connect (Some Sample.city_schema)
                 (Some Sample.city_schema) (Some "atis.db"))
  = fst (construct Sample.E Sample.connect' (Some Sample.city_schema)
                   (Some Sample.city_schema) (Some "atis.db")).
Proof.
  apply construction_deterministic.
  intros path statement. unfold Sample.city_db, Sample.city_db'.
  destruct (String.eqb statement (distinct_query "city" "state")).
  - apply perm_swap.
  - destruct (String.eqb statement (distinct_query "city" "city_name")).
    + apply perm_swap.
    + reflexivity.
Defined.

(** ** The valid actions *)












(** Two characters that are equal or the two cases of one ASCII letter; two
    strings that are such character by character. *)
Local Abbreviation letter_variant :=
  (fun a b : ascii =>
     a = b \/
     exists n, 65 <= n <= 90 /\
               ((nat_of_ascii a = n /\ nat_of_ascii b = n + 32) \/
                (nat_of_ascii a = n + 32 /\ nat_of_ascii b = n))).

Local Abbreviation case_variant :=
  (fun x y : string =>
     Forall2 letter_variant (list_ascii_of_string x) (list_ascii_of_string y)).

(** Two symbols that are equal, or two casings of one keyword of the fixed
    list; two productions differ only in keyword casing when their symbols
    are such, one by one. *)
Local Abbreviation keyword_variant :=
  (fun x y : string =>
     x = y \/
     exists k,
       In k (map (fun k => String "034"%char (k ++ String "034"%char EmptyString)%string)
                 ["SELECT"; "FROM"; "MIN"; "MAX"; "COUNT"; "WHERE"; "NOT"; "IN"; "LIKE";
                  "IS"; "BETWEEN"; "AND"; "ALL"; "ANY"; "NULL"; "OR"; "DISTINCT"]%string) /\
       case_variant x k /\ case_variant y k).









(** ** More on the schema block *)

(** The two schema entries of a constructed context. *)
Lemma schema_entries_of_constructed
    (E : externals) (sqlite3_connect : string -> result database)
    (p : string * list string) (tables : dict)
    (tables_with_strings : option dict) (database_file : option string)
    (c : context) (s : self) :
  construct E sqlite3_connect (Some (p :: tables)) tables_with_strings database_file
  = (Ok c, s) ->
  alternatives "table_name" (get_grammar_dictionary c)
  = sorted_reverse (map q (keys (p :: tables))) /\
  alternatives "col_ref" (get_grammar_dictionary c)
  = sorted_reverse
      (q "*" :: map (fun '(table, column) => col_ref_production table column)
                    (pairs (p :: tables))).
Proof.
  intros Hc.
  apply construct_ok in Hc as (s0 & s2 & g & H0 & H2 & Hd & _).
  apply strings_loop_frame in H2 as [_ H2].
  rewrite Hd, !alternatives_set_other by discriminate.
  unfold alternatives.
  rewrite !H2 by now apply not_rewritten_other.
  rewrite augment_schema_run.
  cbn [snd truthy_dict grammar_dictionary with_dictionary items].
  rewrite dict_get_set_same, dict_get_set_other, dict_get_set_same by discriminate.
  now split.
Qed.

Lemma insert_reverse_least (x : string) (l : list string) :
  Forall (fun y => str_gt y x = true) l -> insert_reverse x l = l ++ [x].
Proof.
  induction 1 as [|y l Hy _ IH]; simpl; trivial. now rewrite Hy, IH.
Qed.

Lemma col_ref_production_above_wildcard (table column : string) :
  str_gt (col_ref_production table column) (q "*") = true.
Proof. reflexivity. Qed.

(** X1: in a context constructed from a schema with at least one table,
    [col_ref] has one alternative for the wildcard and one for every
    (table, column) pair of the schema, 1 + the sum of the column counts in
    all, in descending order. *)
Theorem col_ref_alternatives
    (E : externals) (sqlite3_connect : string -> result database)
    (tables : dict) (tables_with_strings : option dict) (database_file : option string)
    (c : context) (s : self) :
  tables <> [] ->
  construct E sqlite3_connect (Some tables) tables_with_strings database_file = (Ok c, s) ->
  length (alternatives "col_ref" (get_grammar_dictionary c))
  = 1 + list_sum (map (fun '(_, columns) => length columns) tables) /\
  Permutation (alternatives "col_ref" (get_grammar_dictionary c))
    (q "*" :: map (fun '(table, column) =>
                     ("(" ++ q table ++ " ws " ++ q "." ++ " ws " ++ q column ++ ")")%string)
                  (pairs tables)) /\
  StronglySorted str_ge (alternatives "col_ref" (get_grammar_dictionary c)).
Proof.
  intros Hne Hc. destruct tables as [|p tables]; [congruence|].
  apply schema_entries_of_constructed in Hc as [_ ->].
  split; [|split].
  - rewrite sorted_reverse_length. cbn [length]. rewrite length_map.
    change (1 + ?n) with (S n). f_equal.
    generalize (p :: tables). intros d.
    induction d as [|[table columns] d IH]; trivial.
    rewrite pairs_cons, length_app, length_map, IH. reflexivity.
  - exact (sorted_reverse_perm _).
  - apply sorted_reverse_descending.
Qed.

Lemma col_ref_alternatives_witness :
  exists c,
    fst (construct Sample.E Sample.connect (Some Sample.two_tables) None None) = Ok c /\
    length (alternatives "col_ref" (get_grammar_dictionary c)) = 4.
Proof.
  destruct (construct Sample.E Sample.connect (Some Sample.two_tables) None None)
    as [[c|e] s] eqn:Hc; [|vm_compute in Hc; discriminate].
  exists c. split; [reflexivity|].
  destruct (@col_ref_alternatives Sample.E Sample.connect Sample.two_tables
              None None c s) as (Hlen & _ & _).
  - discriminate.
  - exact Hc.
  - exact Hlen.
Defined.

(** X2: in a context constructed from a schema with at least one table, the
    wildcard is the last alternative of [col_ref]: every column alternative
    starts with an opening parenthesis, which is above the double quote the
    wildcard starts with, so all of them are tried before the wildcard. *)
Theorem col_ref_wildcard_last
    (E : externals) (sqlite3_connect : string -> result database)
    (tables : dict) (tables_with_strings : option dict) (database_file : option string)
    (c : context) (s : self) :
  tables <> [] ->
  construct E sqlite3_connect (Some tables) tables_with_strings database_file = (Ok c, s) ->
  exists columns,
    alternatives "col_ref" (get_grammar_dictionary c) = columns ++ [q "*"] /\
    Permutation columns
      (map (fun '(table, column) =>
              ("(" ++ q table ++ " ws " ++ q "." ++ " ws " ++ q column ++ ")")%string)
           (pairs tables)).
Proof.
  intros Hne Hc. destruct tables as [|p tables]; [congruence|].
  apply schema_entries_of_constructed in Hc as [_ ->].
  exists (sorted_reverse (map (fun '(table, column) => col_ref_production table column)
                              (pairs (p :: tables)))).
  split; [|exact (sorted_reverse_perm _)].
  simpl sorted_reverse at 1. apply insert_reverse_least.
  apply Forall_forall. intros y Hy. apply sorted_reverse_In, in_map_iff in Hy.
  destruct Hy as ([table column] & <- & _). apply col_ref_production_above_wildcard.
Qed.

Lemma col_ref_wildcard_last_witness :
  exists c columns,
    fst (construct Sample.E Sample.connect (Some Sample.two_tables) None None) = Ok c /\
    alternatives "col_ref" (get_grammar_dictionary c) = columns ++ [q "*"].
Proof.
  destruct (construct Sample.E Sample.connect (Some Sample.two_tables) None None)
    as [[c|e] s] eqn:Hc; [|vm_compute in Hc; discriminate].
  destruct (@col_ref_wildcard_last Sample.E Sample.connect Sample.two_tables
              None None c s) as (columns & Heq & _).
  - discriminate.
  - exact Hc.
  - exists c, columns. split; [reflexivity | exact Heq].
Defined.

(** X3: the order in which a schema lists its tables and their columns does
    not show in [table_name] and [col_ref]: two contexts constructed from
    schemas with the same tables and the same (table, column) pairs have the
    same alternatives for both. *)
Theorem schema_order_irrelevant
    (E E' : externals) (sqlite3_connect sqlite3_connect' : string -> result database)
    (tables tables' : dict) (tables_with_strings tables_with_strings' : option dict)
    (database_file database_file' : option string)
    (c c' : context) (s s' : self) :
  Permutation (keys tables) (keys tables') ->
  Permutation (pairs tables) (pairs tables') ->
  construct E sqlite3_connect (Some tables) tables_with_strings database_file = (Ok c, s) ->
  construct E' sqlite3_connect' (Some tables') tables_with_strings' database_file'
  = (Ok c', s') ->
  alternatives "table_name" (get_grammar_dictionary c)
  = alternatives "table_name" (get_grammar_dictionary c') /\
  alternatives "col_ref" (get_grammar_dictionary c)
  = alternatives "col_ref" (get_grammar_dictionary c').
Proof.
  intros Hkeys Hpairs Hc Hc'.
  destruct tables as [|p tables], tables' as [|p' tables'].
  - apply construct_ok in Hc as (s0 & s2 & g & H0 & H2 & Hd & _).
    apply construct_ok in Hc' as (s0' & s2' & g' & H0' & H2' & Hd' & _).
    apply connect_database_connection in H0 as (Hbase & _).
    apply connect_database_connection in H0' as (Hbase' & _).
    apply strings_loop_frame in H2 as [_ H2]. apply strings_loop_frame in H2' as [_ H2'].
    rewrite Hd, Hd', !alternatives_set_other by discriminate.
    unfold alternatives.
    rewrite !H2, !H2' by now apply not_rewritten_other.
    rewrite !augment_schema_run. cbn [snd truthy_dict]. now rewrite Hbase, Hbase'.
  - now apply Permutation_nil in Hkeys.
  - now apply Permutation_sym, Permutation_nil in Hkeys.
  - apply schema_entries_of_constructed in Hc as [-> ->].
    apply schema_entries_of_constructed in Hc' as [-> ->].
    split; apply sorted_reverse_of_perm.
    + now apply Permutation_map.
    + constructor. now apply Permutation_map.
Qed.

Lemma schema_order_irrelevant_witness :
  exists c c',
    fst (construct Sample.E Sample.connect (Some Sample.two_tables) None None) = Ok c /\
    fst (construct Sample.E Sample.connect
           (Some [("flight", ["flight_number"]); ("city", ["state"; "city_name"])])
           None None) = Ok c' /\
    alternatives "col_ref" (get_grammar_dictionary c)
    = alternatives "col_ref" (get_grammar_dictionary c').
Proof.
  destruct (construct Sample.E Sample.connect (Some Sample.two_tables) None None)
    as [[c|e] s] eqn:Hc; [|vm_compute in Hc; discriminate].
  destruct (construct Sample.E Sample.connect
              (Some [("flight", ["flight_number"]); ("city", ["state"; "city_name"])])
              None None)
    as [[c'|e] s'] eqn:Hc'; [|vm_compute in Hc'; discriminate].
  exists c, c'. split; [reflexivity|]. split; [reflexivity|].
  destruct (@schema_order_irrelevant Sample.E Sample.E Sample.connect Sample.connect
              Sample.two_tables
              [("flight", ["flight_number"]); ("city", ["state"; "city_name"])]
              None None None None c c' s s') as [_ Hcol].
  - apply perm_swap.
  - simpl.
    transitivity [("city", "state"); ("city", "city_name"); ("flight", "flight_number")];
      [apply perm_swap|].
    transitivity [("city", "state"); ("flight", "flight_number"); ("city", "city_name")];
      [apply perm_skip, perm_swap | apply perm_swap].
  - exact Hc.
  - exact Hc'.
  - exact Hcol.
Defined.

(** ** The statements sent to the database *)

Lemma query_succeeds_cons (db : database) (p : string * string) (ps : list (string * string)) :
  forallb (query_succeeds db) (p :: ps) = true ->
  (exists rows, db (distinct_query (fst p) (snd p)) = Ok rows) /\
  forallb (query_succeeds db) ps = true.
Proof.
  simpl. intros H. apply andb_true_iff in H as [H1 H2]. split; trivial.
  unfold query_succeeds in H1. destruct (db _) as [rows|e]; [now exists rows | discriminate].
Qed.

(** A loop that returned has sent the query of every pair, in order, and
    every one was answered. *)
Lemma strings_loop_trace (ps : list (string * string)) :
  forall (s s' : self) (cur : cursor),
    self_cursor s = Some cur ->
    for_each ps (fun '(table, column) => string_column table column) s = (Ok tt, s') ->
    executed s' = executed s ++ map (fun '(table, column) => distinct_query table column) ps /\
    forallb (query_succeeds (cur_database cur)) ps = true.
Proof.
  induction ps as [|[table column] ps IH]; intros s s' cur Hc Hrun.
  - injection Hrun as <-. now rewrite app_nil_r.
  - simpl in Hrun. unfold bind in Hrun. rewrite (string_column_run _ _ _ Hc) in Hrun.
    simpl. unfold query_succeeds at 1. simpl.
    destruct (cur_database cur (distinct_query table column)) as [rows|e]; [|discriminate].
    pose proof (fun cur0 H => IH _ s' cur0 H Hrun) as IH'.
    destruct (IH' _ eq_refl) as [Hex Hall]. simpl in Hex, Hall.
    now rewrite Hex, <- app_assoc.
Qed.

(** The first query that the database refuses ends the loop: its exception
    is the outcome, and no later query is sent. *)
Lemma strings_loop_aborts (pre : list (string * string)) :
  forall (post : list (string * string)) (table column : string)
         (s : self) (cur : cursor) (e : exception),
    self_cursor s = Some cur ->
    forallb (query_succeeds (cur_database cur)) pre = true ->
    cur_database cur (distinct_query table column) = Raise e ->
    fst (for_each (pre ++ (table, column) :: post)
                  (fun '(table, column) => string_column table column) s) = Raise e /\
    executed (snd (for_each (pre ++ (table, column) :: post)
                            (fun '(table, column) => string_column table column) s))
    = executed s ++ map (fun '(table, column) => distinct_query table column)
                        (pre ++ [(table, column)]).
Proof.
  induction pre as [|[t c] pre IH]; intros post table column s cur e Hc Hpre Hq.
  - simpl. unfold bind. rewrite (string_column_run _ _ _ Hc), Hq. now split.
  - apply query_succeeds_cons in Hpre as [[rows Hrows] Hpre]. simpl in Hrows.
    simpl for_each. unfold bind. rewrite (string_column_run _ _ _ Hc), Hrows.
    match goal with
    | |- context [for_each _ _ ?st] =>
        destruct (IH post table column st _ e eq_refl Hpre Hq) as [Hr Hex]
    end.
    split; [exact Hr|].
    rewrite Hex. simpl. now rewrite <- app_assoc.
Qed.

Lemma connection_close_executed (s : self) :
  executed (snd (connection_close s)) = executed s.
Proof. unfold connection_close. now destruct (self_connection s). Qed.

(** X4: a construction that returns a context has sent to the database
    exactly one distinct-value query per constrained (table, column) pair,
    in the order of the pairs, and nothing else; without constrained pairs
    it has sent nothing. *)
Theorem one_query_per_pair
    (E : externals) (sqlite3_connect : string -> result database)
    (all_tables tables_with_strings : option dict) (database_file : option string)
    (c : context) (s : self) :
  construct E sqlite3_connect all_tables tables_with_strings database_file = (Ok c, s) ->
  executed s
  = map (fun '(table, column) =>
           ("SELECT DISTINCT " ++ table ++ " . " ++ column ++ " FROM " ++ table)%string)
        (pairs (items tables_with_strings)).
Proof.
  rewrite construct_run.
  destruct (connect_database _ _ _ _) as [[[]|e] s0] eqn:H0; [|now intros [=]].
  apply connect_database_connection in H0 as (_ & Hex0 & H0).
  rewrite initialize_grammar_str_run.
  destruct (for_each _ _ _) as [[[]|e] s2] eqn:H2; cbv beta iota zeta; [|now intros [=]].
  destruct (Grammar E _); [|now intros [=]].
  intros [= _ <-].
  assert (Hs2 : executed s2
                = map (fun '(table, column) => distinct_query table column)
                      (pairs (items tables_with_strings))).
  { pose proof (augment_schema_connection all_tables s0) as (_ & Hcur & Hex).
    destruct (truthy_str database_file).
    - destruct H0 as (f & path & db & _ & _ & _ & ->).
      edestruct strings_loop_trace as [Htrace _]; [|exact H2|].
      + rewrite Hcur. reflexivity.
      + now rewrite Htrace, Hex.
    - subst s0. destruct (pairs (items tables_with_strings)) as [|p ps] eqn:Hps.
      + injection H2 as <-. now rewrite Hex.
      + rewrite strings_loop_no_cursor in H2; [discriminate | now rewrite Hcur | discriminate]. }
  destruct (truthy_str database_file); [rewrite connection_close_executed|]; exact Hs2.
Qed.

Lemma one_query_per_pair_witness :
  exists c s,
    construct Sample.E Sample.connect (Some Sample.city_schema)
              (Some Sample.city_schema) (Some "atis.db") = (Ok c, s) /\
    executed s = [distinct_query "city" "city_name"; distinct_query "city" "state"].
Proof.
  destruct (construct Sample.E Sample.connect (Some Sample.city_schema)
                      (Some Sample.city_schema) (Some "atis.db"))
    as [[c|e] s] eqn:Hc; [|vm_compute in Hc; discriminate].
  exists c, s. split; [reflexivity|].
  exact (one_query_per_pair _ _ _ _ _ Hc).
Defined.

(** X5: a context is returned only when the database has answered the
    distinct-value query of every constrained pair: there is no partial
    result. *)
Theorem constructed_only_if_all_answered
    (E : externals) (sqlite3_connect : string -> result database)
    (all_tables tables_with_strings : option dict) (database_file : option string)
    (c : context) (s : self) (f path : string) (db : database) :
  construct E sqlite3_connect all_tables tables_with_strings database_file = (Ok c, s) ->
  database_file = Some f -> cached_path E f = Ok path -> sqlite3_connect path = Ok db ->
  forallb (query_succeeds db) (pairs (items tables_with_strings)) = true.
Proof.
  intros Hc Hf Hp Hdb.
  destruct (pairs (items tables_with_strings)) as [|p ps] eqn:Hps; [reflexivity|].
  apply constructed_with_cursor in Hc
    as (f' & path' & db' & s1 & s2 & Hf' & Hp' & Hdb' & Hcur & Hloop & _);
    [|rewrite Hps; discriminate].
  assert (db' = db) as -> by congruence.
  rewrite Hps in Hloop.
  now destruct (strings_loop_trace _ _ Hcur Hloop) as [_ Hall].
Qed.

Lemma constructed_only_if_all_answered_witness :
  forallb (query_succeeds Sample.city_db) (pairs Sample.city_schema) = true.
Proof.
  destruct (construct Sample.E Sample.connect (Some Sample.city_schema)
                      (Some Sample.city_schema) (Some "atis.db"))
    as [[c|e] s] eqn:Hc; [|vm_compute in Hc; discriminate].
  exact (@constructed_only_if_all_answered Sample.E Sample.connect
           (Some Sample.city_schema) (Some Sample.city_schema) (Some "atis.db")
           c s "atis.db" "atis.db" Sample.city_db Hc eq_refl eq_refl eq_refl).
Defined.

(** X6: with a database connected, the first constrained pair whose query
    the database refuses ends construction with the exception of that query;
    the queries of the pairs before it were sent, and none after it. *)
Theorem first_query_error_aborts
    (E : externals) (sqlite3_connect : string -> result database)
    (all_tables tables_with_strings : option dict)
    (x : ascii) (f path : string) (db : database)
    (pre post : list (string * string)) (table column : string) (e : exception) :
  cached_path E (String x f) = Ok path -> sqlite3_connect path = Ok db ->
  pairs (items tables_with_strings) = pre ++ (table, column) :: post ->
  forallb (query_succeeds db) pre = true ->
  db (distinct_query table column) = Raise e ->
  let r := construct E sqlite3_connect all_tables tables_with_strings
                     (Some (String x f)) in
  fst r = Raise e /\
  executed (snd r)
  = map (fun '(table, column) => distinct_query table column) (pre ++ [(table, column)]).
Proof.
  intros Hp Hdb Hps Hpre Hq. cbv zeta.
  rewrite construct_run, connect_database_run, Hp, Hdb, initialize_grammar_str_run, Hps.
  pose proof (augment_schema_connection all_tables
                (snd (open_connection db (with_dictionary GRAMMAR_DICTIONARY new_self))))
    as (_ & Hcur & Hex).
  edestruct strings_loop_aborts as [Hr Htrace]; [exact Hcur | exact Hpre | exact Hq |].
  match goal with
  | |- context [for_each ?l ?body ?st] =>
      assert (Hr' : fst (for_each l body st) = Raise e) by exact Hr;
      assert (Htrace' : executed (snd (for_each l body st))
                        = executed st
                          ++ map (fun '(table, column) => distinct_query table column)
                                 (pre ++ [(table, column)])) by exact Htrace;
      destruct (for_each l body st) as [r1 s2]
  end.
  cbn [fst snd] in Hr', Htrace'. subst r1.
  cbv beta iota zeta. cbn [fst snd]. split; [reflexivity|]. now rewrite Htrace', Hex.
Qed.

Lemma first_query_error_aborts_witness :
  fst (construct Sample.E Sample.connect (Some Sample.two_tables)
                 (Some Sample.two_tables) (Some "atis.db")) = Raise DataSourceError /\
  executed (snd (construct Sample.E Sample.connect (Some Sample.two_tables)
                           (Some Sample.two_tables) (Some "atis.db")))
  = [distinct_query "city" "city_name"; distinct_query "city" "state";
     distinct_query "flight" "flight_number"].
Proof.
  apply (@first_query_error_aborts Sample.E Sample.connect (Some Sample.two_tables)
           (Some Sample.two_tables) "a"%char "tis.db" "atis.db" Sample.city_db
           [("city", "city_name"); ("city", "state")] [] "flight" "flight_number"
           DataSourceError); reflexivity.
Defined.

(** ** The rules of the grammar dictionary and their order *)

Lemma keys_dict_set {V} (k : string) (v : V) (d : dict_of V) :
  keys (dict_set k v d) = add_key (keys d) k.
Proof.
  unfold add_key. induction d as [|[k' v'] d IH]; simpl; trivial.
  destruct (String.eqb k k') eqn:Hk; simpl.
  - apply String.eqb_eq in Hk. now subst.
  - fold (keys (dict_set k v d)). rewrite IH. fold (keys d).
    now destruct (existsb (String.eqb k) (keys d)).
Qed.

Lemma add_key_present (ks : list string) (k : string) : In k ks -> add_key ks k = ks.
Proof.
  intros H. unfold add_key.
  replace (existsb (String.eqb k) ks) with true; trivial.
  symmetry. apply existsb_exists. exists k. split; trivial. apply String.eqb_refl.
Qed.

Lemma add_key_keeps (ks : list string) (k k' : string) : In k ks -> In k (add_key ks k').
Proof.
  intros H. unfold add_key. destruct (existsb _ _); trivial. apply in_or_app. now left.
Qed.

Lemma fold_add_key_keeps (l ks : list string) (k : string) :
  In k ks -> In k (fold_left add_key l ks).
Proof.
  revert ks; induction l as [|x l IH]; intros ks H; simpl; trivial.
  now apply IH, add_key_keeps.
Qed.

Lemma fold_add_key_prefix (l ks : list string) :
  exists rest, fold_left add_key l ks = ks ++ rest.
Proof.
  revert ks; induction l as [|x l IH]; intros ks; simpl.
  - exists []. now rewrite app_nil_r.
  - destruct (IH (add_key ks x)) as [rest ->]. unfold add_key.
    destruct (existsb _ _); [now exists rest|].
    exists (x :: rest). now rewrite <- app_assoc.
Qed.

Lemma strings_loop_keys (ps : list (string * string)) : forall s s' : self,
  for_each ps (fun '(table, column) => string_column table column) s = (Ok tt, s') ->
  keys (grammar_dictionary s')
  = fold_left add_key
      (map (fun '(table, column) => string_nonterminal table column) ps)
      (keys (grammar_dictionary s)).
Proof.
  induction ps as [|[table column] ps IH]; intros s s' Hrun.
  - now injection Hrun as <-.
  - simpl in Hrun. unfold bind in Hrun.
    destruct (self_cursor s) as [cur|] eqn:Hc.
    + rewrite (string_column_run _ _ _ Hc) in Hrun.
      destruct (cur_database cur _) as [rows|e]; [|discriminate].
      apply IH in Hrun. rewrite Hrun. simpl. now rewrite keys_dict_set.
    + now rewrite (string_column_no_cursor _ _ _ Hc) in Hrun.
Qed.

(** X7: the rules of a constructed context stand in this order: the rules
    of the base grammar in their order, [statement] first; then
    [table_name] and [col_ref] when the schema has a table; then the string
    nonterminals, each where its first constrained pair put it.  No other
    rule is added, none is removed. *)
Theorem dictionary_keys_order
    (E : externals) (sqlite3_connect : string -> result database)
    (all_tables tables_with_strings : option dict) (database_file : option string)
    (c : context) (s : self) :
  construct E sqlite3_connect all_tables tables_with_strings database_file = (Ok c, s) ->
  keys (get_grammar_dictionary c)
  = fold_left add_key
      (map (fun '(table, column) => (table ++ "_" ++ column ++ "_string")%string)
           (pairs (items tables_with_strings)))
      (keys GRAMMAR_DICTIONARY
       ++ (if truthy_dict all_tables then ["table_name"; "col_ref"] else [])) /\
  exists rest, keys (get_grammar_dictionary c) = keys GRAMMAR_DICTIONARY ++ rest.
Proof.
  intros Hc. apply construct_ok in Hc as (s0 & s2 & g & H0 & H2 & Hd & _).
  apply connect_database_connection in H0 as (Hbase & _).
  apply strings_loop_keys in H2.
  assert (Hschema : keys (grammar_dictionary (snd (augment_schema all_tables s0)))
                    = keys GRAMMAR_DICTIONARY
                      ++ (if truthy_dict all_tables then ["table_name"; "col_ref"] else [])).
  { rewrite augment_schema_run. cbn [snd]. destruct (truthy_dict all_tables).
    - cbn [grammar_dictionary with_dictionary]. rewrite !keys_dict_set, Hbase. reflexivity.
    - now rewrite Hbase, app_nil_r. }
  rewrite Hschema in H2.
  assert (Hkeys : keys (get_grammar_dictionary c) = keys (grammar_dictionary s2)).
  { rewrite Hd, keys_dict_set. apply add_key_present. rewrite H2.
    apply fold_add_key_keeps, in_or_app. left. simpl. tauto. }
  rewrite Hkeys, H2. split; [reflexivity|].
  destruct (fold_add_key_prefix
              (map (fun '(table, column) => string_nonterminal table column)
                   (pairs (items tables_with_strings)))
              (keys GRAMMAR_DICTIONARY
               ++ (if truthy_dict all_tables then ["table_name"; "col_ref"] else [])))
    as [rest Hrest].
  exists ((if truthy_dict all_tables then ["table_name"; "col_ref"] else []) ++ rest).
  now rewrite Hrest, app_assoc.
Qed.

Lemma dictionary_keys_order_witness :
  exists c,
    fst (construct Sample.E Sample.connect (Some Sample.city_schema)
                   (Some Sample.city_schema) (Some "atis.db")) = Ok c /\
    keys (get_grammar_dictionary c)
    = keys GRAMMAR_DICTIONARY
      ++ ["table_name"; "col_ref"; "city_city_name_string"; "city_state_string"].
Proof.
  destruct (construct Sample.E Sample.connect (Some Sample.city_schema)
                      (Some Sample.city_schema) (Some "atis.db"))
    as [[c|e] s] eqn:Hc; [|vm_compute in Hc; discriminate].
  exists c. split; [reflexivity|].
  destruct (dictionary_keys_order _ _ _ _ _ Hc) as [Hkeys _].
  rewrite Hkeys. reflexivity.
Defined.

(** X8: construction rewrites no rule of the base grammar but [biexpr]:
    whatever the arguments and however construction ends, every other
    nonterminal of the base grammar keeps its alternatives. *)
Theorem base_rules_untouched
    (E : externals) (sqlite3_connect : string -> result database)
    (all_tables tables_with_strings : option dict) (database_file : option string)
    (k : string) :
  In k (keys GRAMMAR_DICTIONARY) -> k <> "biexpr" ->
  dict_get k (grammar_dictionary
                (snd (construct E sqlite3_connect all_tables tables_with_strings
                                database_file)))
  = dict_get k GRAMMAR_DICTIONARY.
Proof.
  intros Hin Hk.
  assert (Hname : endswith k "_string" = false /\ k <> "table_name" /\ k <> "col_ref").
  { simpl in Hin.
    repeat (destruct Hin as [<-|Hin]; [repeat split; (reflexivity || discriminate)|]).
    contradiction. }
  destruct Hname as (Hs & Ht & Hc).
  rewrite construct_run.
  destruct (connect_database _ _ _ _) as [[[]|e] s0] eqn:H0;
    apply connect_database_connection in H0 as (Hbase & _);
    [|cbn [snd]; now rewrite Hbase].
  assert (Hinit : forall r s1,
             initialize_grammar_str E all_tables tables_with_strings s0 = (r, s1) ->
             dict_get k (grammar_dictionary s1) = dict_get k GRAMMAR_DICTIONARY).
  { intros r s1 H1.
    rewrite (@initialize_grammar_str_frame _ _ _ _ _ _ k H1 Hs Hk).
    rewrite augment_schema_run. cbn [snd]. destruct (truthy_dict all_tables).
    - cbn [grammar_dictionary with_dictionary].
      now rewrite !dict_get_set_other, Hbase by assumption.
    - now rewrite Hbase. }
  destruct (initialize_grammar_str _ _ _ _) as [[text|e] s1] eqn:H1.
  - destruct (Grammar E text); cbn [snd]; [|exact (Hinit _ _ eq_refl)].
    destruct (truthy_str database_file); rewrite ?connection_close_dictionary;
      exact (Hinit _ _ eq_refl).
  - exact (Hinit _ _ eq_refl).
Qed.

Lemma base_rules_untouched_witness :
  dict_get "agg_func"
    (grammar_dictionary
       (snd (construct Sample.E Sample.connect (Some Sample.city_schema)
                       (Some Sample.city_schema) (Some "atis.db"))))
  = dict_get "agg_func" GRAMMAR_DICTIONARY.
Proof.
  apply base_rules_untouched; [simpl; tauto | discriminate].
Defined.

(** X9: when the string constraints name no (table, column) pair, whether
    absent, empty, or with empty column lists only, a constructed context
    has the [biexpr] rule of the base grammar. *)
Theorem no_constraints_keeps_biexpr
    (E : externals) (sqlite3_connect : string -> result database)
    (all_tables tables_with_strings : option dict) (database_file : option string)
    (c : context) (s : self) :
  pairs (items tables_with_strings) = [] ->
  construct E sqlite3_connect all_tables tables_with_strings database_file = (Ok c, s) ->
  dict_get "biexpr" (get_grammar_dictionary c) = dict_get "biexpr" GRAMMAR_DICTIONARY.
Proof.
  intros Hps Hc. apply construct_ok in Hc as (s0 & s2 & g & _ & _ & Hd & _).
  rewrite Hd, Hps, dict_get_set_same. reflexivity.
Qed.

Lemma no_constraints_keeps_biexpr_witness :
  exists c,
    fst (construct Sample.E Sample.connect (Some Sample.city_schema)
                   (Some [("city", [])]) None) = Ok c /\
    dict_get "biexpr" (get_grammar_dictionary c) = dict_get "biexpr" GRAMMAR_DICTIONARY.
Proof.
  destruct (construct Sample.E Sample.connect (Some Sample.city_schema)
                      (Some [("city", [])]) None)
    as [[c|e] s] eqn:Hc; [|vm_compute in Hc; discriminate].
  exists c. split; [reflexivity|].
  exact (@no_constraints_keeps_biexpr Sample.E Sample.connect (Some Sample.city_schema)
           (Some [("city", [])]) None c s eq_refl Hc).
Defined.

(** ** Failures of the collaborators, and empty arguments *)

(** X10: when a database file is supplied and fetching it or connecting to
    it raises, construction ends with that exception before any grammar
    work: the dictionary is still the base grammar, no connection or cursor
    exists and nothing was executed. *)
Theorem database_failure_propagates
    (E : externals) (sqlite3_connect : string -> result database)
    (all_tables tables_with_strings : option dict)
    (x : ascii) (f : string) (e : exception) :
  cached_path E (String x f) = Raise e \/
  (exists path, cached_path E (String x f) = Ok path /\ sqlite3_connect path = Raise e) ->
  let r := construct E sqlite3_connect all_tables tables_with_strings
                     (Some (String x f)) in
  fst r = Raise e /\
  grammar_dictionary (snd r) = GRAMMAR_DICTIONARY /\
  self_connection (snd r) = None /\ self_cursor (snd r) = None /\ executed (snd r) = [].
Proof.
  intros H. cbv zeta. rewrite construct_run, connect_database_run.
  destruct H as [-> | (path & -> & ->)]; cbn [fst snd]; repeat split.
Qed.

Lemma database_failure_propagates_witness :
  fst (construct Sample.E (fun _ => Raise DataSourceError) (Some Sample.city_schema)
                 (Some Sample.city_schema) (Some "atis.db")) = Raise DataSourceError.
Proof.
  refine (proj1 (@database_failure_propagates Sample.E (fun _ => Raise DataSourceError)
                   (Some Sample.city_schema) (Some Sample.city_schema)
                   "a"%char "tis.db" DataSourceError _)).
  right. exists "atis.db". split; reflexivity.
Defined.

(** X12: the valid actions of a constructed context come from the very
    dictionary the context exposes: [Grammar] accepted the text formatted
    from that dictionary, the actions are those of the compiled grammar with
    [KEYWORDS], and the dictionary is the one [self] holds at the end. *)
Theorem valid_actions_from_dictionary
    (E : externals) (sqlite3_connect : string -> result database)
    (all_tables tables_with_strings : option dict) (database_file : option string)
    (c : context) (s : self) :
  construct E sqlite3_connect all_tables tables_with_strings database_file = (Ok c, s) ->
  get_grammar_dictionary c = grammar_dictionary s /\
  exists g,
    Grammar E (format_grammar_string E (get_grammar_dictionary c)) = Ok g /\
    get_valid_actions c = initialize_valid_actions E g KEYWORDS.
Proof.
  intros Hc. split.
  - rewrite construct_run in Hc.
    destruct (connect_database _ _ _ _) as [[[]|e] s0]; [|discriminate].
    destruct (initialize_grammar_str _ _ _ _) as [[text|e] s1]; [|discriminate].
    destruct (Grammar E text); [|discriminate].
    injection Hc as <- <-. cbn [get_grammar_dictionary].
    now destruct (truthy_str database_file); rewrite ?connection_close_dictionary.
  - apply construct_ok in Hc as (_ & _ & g & _ & _ & _ & Hg & Hva). now exists g.
Qed.

Lemma valid_actions_from_dictionary_witness :
  exists c,
    fst (construct Sample.E Sample.connect (Some Sample.city_schema) None None) = Ok c /\
    get_valid_actions c
    = [("grammar", [Sample.format_grammar_string (get_grammar_dictionary c)])].
Proof.
  destruct (construct Sample.E Sample.connect (Some Sample.city_schema) None None)
    as [[c|e] s] eqn:Hc; [|vm_compute in Hc; discriminate].
  exists c. split; [reflexivity|].
  destruct (valid_actions_from_dictionary _ _ _ _ _ Hc) as (_ & g & Hg & Hva).
  simpl in Hg, Hva. injection Hg as <-. exact Hva.
Defined.

Lemma construct_closes_connection_witness :
  option_map conn_open
    (self_connection
       (snd (construct Sample.E Sample.connect (Some Sample.city_schema)
                       (Some Sample.city_schema) (Some "atis.db")))) = Some false.
Proof.
  destruct (construct Sample.E Sample.connect (Some Sample.city_schema)
                      (Some Sample.city_schema) (Some "atis.db"))
    as [[c|e] s] eqn:Hc; [|vm_compute in Hc; discriminate].
  exact (@construct_closes_connection Sample.E Sample.connect (Some Sample.city_schema)
           (Some Sample.city_schema) (Some "atis.db") c s eq_refl Hc).
Defined.

Lemma construct_failure_leaves_connection_witness :
  exists conn,
    self_connection
      (snd (construct Sample.E Sample.connect (Some Sample.two_tables)
                      (Some Sample.two_tables) (Some "atis.db"))) = Some conn /\
    conn_open conn = true.
Proof.
  destruct (construct Sample.E Sample.connect (Some Sample.two_tables)
                      (Some Sample.two_tables) (Some "atis.db"))
    as [[c|e] s] eqn:Hc; [vm_compute in Hc; discriminate|].
  destruct (self_connection s) as [conn|] eqn:Hconn.
  - exists conn. split; [exact Hconn|].
    exact (@construct_failure_leaves_connection Sample.E Sample.connect
             (Some Sample.two_tables) (Some Sample.two_tables) (Some "atis.db")
             e s conn Hc Hconn).
  - exfalso. apply (f_equal (fun r => option_map conn_open (self_connection (snd r)))) in Hc.
    simpl snd in Hc at 2. rewrite Hconn in Hc. vm_compute in Hc. discriminate.
Defined.

(** ** When construction returns *)

Lemma strings_loop_succeeds (ps : list (string * string)) : forall (s : self) (cur : cursor),
  self_cursor s = Some cur ->
  forallb (query_succeeds (cur_database cur)) ps = true ->
  exists s', for_each ps (fun '(table, column) => string_column table column) s = (Ok tt, s').
Proof.
  induction ps as [|[table column] ps IH]; intros s cur Hc Hall.
  - now exists s.
  - apply query_succeeds_cons in Hall as [[rows Hrows] Hall]. simpl in Hrows.
    simpl. unfold bind. rewrite (string_column_run _ _ _ Hc), Hrows.
    match goal with
    | |- context [for_each _ _ ?st] => exact (IH st _ eq_refl Hall)
    end.
Qed.

(** X15: nothing but its collaborators can make construction with a
    database fail: when the file is fetched, the connection is made, every
    distinct-value query of a constrained pair is answered and [Grammar]
    accepts the grammar text that [initialize_grammar_str] returns, a
    context is returned. *)
Theorem construction_with_database_returns
    (E : externals) (sqlite3_connect : string -> result database)
    (all_tables tables_with_strings : option dict)
    (x : ascii) (f path : string) (db : database) :
  cached_path E (String x f) = Ok path -> sqlite3_connect path = Ok db ->
  forallb (query_succeeds db) (pairs (items tables_with_strings)) = true ->
  (forall text s1,
      initialize_grammar_str E all_tables tables_with_strings
        (snd (open_connection db (with_dictionary GRAMMAR_DICTIONARY new_self)))
      = (Ok text, s1) ->
      exists g, Grammar E text = Ok g) ->
  exists c,
    fst (construct E sqlite3_connect all_tables tables_with_strings (Some (String x f)))
    = Ok c.
Proof.
  intros Hp Hdb Hall Hgrammar.
  assert (Hinit : exists text s1,
             initialize_grammar_str E all_tables tables_with_strings
               (snd (open_connection db (with_dictionary GRAMMAR_DICTIONARY new_self)))
             = (Ok text, s1)).
  { rewrite initialize_grammar_str_run.
    pose proof (augment_schema_connection all_tables
                  (snd (open_connection db (with_dictionary GRAMMAR_DICTIONARY new_self))))
      as (_ & Hcur & _).
    destruct (strings_loop_succeeds _ _ Hcur Hall) as [s2 Hrun].
    match goal with
    | |- context [for_each ?l ?body ?st] =>
        assert (Hrun' : for_each l body st = (Ok tt, s2)) by exact Hrun; rewrite Hrun'
    end.
    cbv beta iota zeta. eexists. eexists. reflexivity. }
  destruct Hinit as (text & s1 & Hinit).
  destruct (Hgrammar _ _ Hinit) as [g Hg].
  rewrite construct_run, connect_database_run, Hp, Hdb, Hinit, Hg.
  eexists. reflexivity.
Qed.

Lemma construction_with_database_returns_witness :
  exists c,
    fst (construct Sample.E Sample.connect (Some Sample.city_schema)
                   (Some Sample.city_schema) (Some "atis.db")) = Ok c.
Proof.
  apply (@construction_with_database_returns Sample.E Sample.connect
           (Some Sample.city_schema) (Some Sample.city_schema)
           "a"%char "tis.db" "atis.db" Sample.city_db); try reflexivity.
  intros text s1 _. exists text. reflexivity.
Defined.

(** X16: without a database file, construction returns a context whenever
    the string constraints name no (table, column) pair and [Grammar]
    accepts the grammar text that [initialize_grammar_str] returns; nothing
    is connected and nothing executed. *)
Theorem construction_without_database_returns
    (E : externals) (sqlite3_connect : string -> result database)
    (all_tables tables_with_strings : option dict) (database_file : option string) :
  truthy_str database_file = false ->
  pairs (items tables_with_strings) = [] ->
  (forall text s1,
      initialize_grammar_str E all_tables tables_with_strings
        (with_dictionary GRAMMAR_DICTIONARY new_self)
      = (Ok text, s1) ->
      exists g, Grammar E text = Ok g) ->
  let r := construct E sqlite3_connect all_tables tables_with_strings database_file in
  (exists c, fst r = Ok c) /\
  self_connection (snd r) = None /\ executed (snd r) = [].
Proof.
  intros Hfile Hps Hgrammar. cbv zeta.
  assert (Hinit : exists text s1,
             initialize_grammar_str E all_tables tables_with_strings
               (with_dictionary GRAMMAR_DICTIONARY new_self) = (Ok text, s1) /\
             self_connection s1 = None /\ executed s1 = []).
  { rewrite initialize_grammar_str_run, Hps.
    pose proof (augment_schema_connection all_tables
                  (with_dictionary GRAMMAR_DICTIONARY new_self)) as (Hconn & _ & Hex).
    cbn [for_each ret]. cbv beta iota zeta. eexists. eexists.
    split; [reflexivity|]. cbn [with_dictionary self_connection executed]. now split. }
  destruct Hinit as (text & s1 & Hinit & Hconn & Hex).
  destruct (Hgrammar _ _ Hinit) as [g Hg].
  rewrite construct_run, connect_database_run.
  assert (Hstart : match database_file with
                   | Some (String x f) =>
                       match cached_path E (String x f) with
                       | Ok path =>
                           match sqlite3_connect path with
                           | Ok db => (Ok tt, snd (open_connection db
                                         (with_dictionary GRAMMAR_DICTIONARY new_self)))
                           | Raise e => (Raise e, with_dictionary GRAMMAR_DICTIONARY new_self)
                           end
                       | Raise e => (Raise e, with_dictionary GRAMMAR_DICTIONARY new_self)
                       end
                   | _ => (Ok tt, with_dictionary GRAMMAR_DICTIONARY new_self)
                   end = (Ok tt, with_dictionary GRAMMAR_DICTIONARY new_self)).
  { now destruct database_file as [[|x f]|]. }
  rewrite Hstart, Hinit, Hg, Hfile. cbn [fst snd].
  split; [eexists; reflexivity | now split].
Qed.

Lemma construction_without_database_returns_witness :
  exists c,
    fst (construct Sample.E Sample.connect (Some Sample.city_schema) None None) = Ok c.
Proof.
  refine (proj1 (@construction_without_database_returns Sample.E Sample.connect
                   (Some Sample.city_schema) None None eq_refl eq_refl _)).
  intros text s1 _. exists text. reflexivity.
Defined.
